(** * Employee ETL: SCD Type II load of [hr.dim_employee]

    A shallow embedding of [python_employee_etl.py] (class [EmployeeETL]):
    the JSON field extraction, the three loading loops, the transaction in
    [set_employee] and the post-load checks of [validate_data_quality].

    The PostgreSQL table is a list of rows in insertion order; each SQL
    statement the program issues is a function on that list.  The JSON
    input is read at the type the parser expects: objects where the code
    calls [.get], strings or [null] at the leaves. *)

From Stdlib Require Import ZArith String Ascii List Lia Bool.
From stdpp Require Import base decidable option list strings gmap.
Import ListNotations.

Local Open Scope Z_scope.

(** ** Calendar dates

    A [datetime.date] is held as its proleptic Gregorian ordinal
    ([date.toordinal()]); subtracting [INTERVAL '1 day'] is [- 1]. *)

Module Date.

Definition is_leap (y : Z) : bool :=
  (y mod 4 =? 0) && (negb (y mod 100 =? 0) || (y mod 400 =? 0)).

Definition days_before_year (y : Z) : Z :=
  let p := y - 1 in p * 365 + p / 4 - p / 100 + p / 400.

Definition days_in_month (y m : Z) : Z :=
  if m =? 2 then (if is_leap y then 29 else 28)
  else if (m =? 4) || (m =? 6) || (m =? 9) || (m =? 11) then 30
  else 31.

Definition days_before_month (y m : Z) : Z :=
  fold_right Z.add 0
    (map (days_in_month y) (map Z.of_nat (seq 1 (Z.to_nat (m - 1))))).

(** [date(y, m, d).toordinal()] *)
Definition date (y m d : Z) : Z :=
  days_before_year y + days_before_month y m + d.

(** [%s - INTERVAL '1 day'] *)
Definition minus_one_day (d : Z) : Z := d - 1.

(** [date(9999, 12, 31)], also written ['9999-12-31'::date] *)
Definition infinite : Z := date 9999 12 31.

End Date.

(** ** Python strings

    A Python [str] is held as its UTF-8 encoding, one [ascii] per byte. *)

(** What an f-string prints for a value that is a string or [None]. *)
Definition py_str (v : option string) : string :=
  match v with
  | Some s => s
  | None => "None"
  end.

(** [str.isspace] on a character of one byte: TAB to CR, FS to US and
    the space. *)
Definition is_space1 (a : N) : bool :=
  ((9 <=? a) && (a <=? 13) || (28 <=? a) && (a <=? 32))%N.

(** [str.isspace] on a character of two bytes: U+0085 and U+00A0. *)
Definition is_space2 (a b : N) : bool :=
  ((a =? 194) && ((b =? 133) || (b =? 160)))%N.

(** [str.isspace] on a character of three bytes: U+1680, U+2000 to
    U+200A, U+2028, U+2029, U+202F, U+205F and U+3000.  No character of
    four bytes is whitespace. *)
Definition is_space3 (a b c : N) : bool :=
  ((a =? 225) && (b =? 154) && (c =? 128)
   || (a =? 226) && (b =? 128)
      && ((128 <=? c) && (c <=? 138) || (c =? 168) || (c =? 169) || (c =? 175))
   || (a =? 226) && (b =? 129) && (c =? 159)
   || (a =? 227) && (b =? 128) && (c =? 128))%N.

(** The number of bytes of the whitespace character the bytes [l] begin
    with, 0 when they begin with none. *)
Definition space_width (l : list ascii) : nat :=
  match l with
  | [] => 0
  | a :: l1 =>
      if is_space1 (N_of_ascii a) then 1
      else
        match l1 with
        | [] => 0
        | b :: l2 =>
            if is_space2 (N_of_ascii a) (N_of_ascii b) then 2
            else
              match l2 with
              | [] => 0
              | c :: _ =>
                  if is_space3 (N_of_ascii a) (N_of_ascii b) (N_of_ascii c)
                  then 3 else 0
              end
        end
  end%nat.

(** The same on reversed bytes: the width of the whitespace character
    the string ends with. *)
Definition space_width_rev (l : list ascii) : nat :=
  match l with
  | [] => 0
  | a :: l1 =>
      if is_space1 (N_of_ascii a) then 1
      else
        match l1 with
        | [] => 0
        | b :: l2 =>
            if is_space2 (N_of_ascii b) (N_of_ascii a) then 2
            else
              match l2 with
              | [] => 0
              | c :: _ =>
                  if is_space3 (N_of_ascii c) (N_of_ascii b) (N_of_ascii a)
                  then 3 else 0
              end
        end
  end%nat.

(** Drop whitespace characters from the front for as long as there is
    one; [fuel] bounds the number of characters dropped. *)
Fixpoint strip_front (width : list ascii -> nat) (fuel : nat) (l : list ascii)
  : list ascii :=
  match fuel with
  | O => l
  | S fuel' =>
      match width l with
      | O => l
      | S w => strip_front width fuel' (skipn (S w) l)
      end
  end.

(** [s.lstrip()] *)
Definition lstrip (s : string) : string :=
  let l := list_ascii_of_string s in
  string_of_list_ascii (strip_front space_width (length l) l).

(** [s.rstrip()] *)
Definition rstrip (s : string) : string :=
  let l := rev (list_ascii_of_string s) in
  string_of_list_ascii (rev (strip_front space_width_rev (length l) l)).

(** [s.strip()] *)
Definition strip (s : string) : string := rstrip (lstrip s).

(** ** JSON input *)

(** A JSON object whose values are strings or [null]. *)
Abbreviation obj := (gmap string (option string)).

(** [d.get(k)]: [None] when the key is absent or holds [null]. *)
Definition get (d : obj) (k : string) : option string := mjoin (d !! k).

(** [d.get(k, dflt)]: the default only replaces an absent key. *)
Definition get_default (d : obj) (k : string) (dflt : string) : option string :=
  default (Some dflt) (d !! k).

(** [contact_info]: its scalar keys and, when present, the nested
    [address] object. *)
Record ContactInfo := {
  contact_scalars : obj;
  contact_address : option obj
}.

(** [employee_data]: its scalar keys and, when present, the nested
    objects; an absent nested object is read as [{}]. *)
Record EmployeeData := {
  data_scalars : obj;
  data_personal_info : option obj;
  data_contact_info : option ContactInfo;
  data_employment_data : option obj
}.

(** One element of [data['employees']]. *)
Record EmployeeRecord := {
  operation_type : option string;
  employee_data : option EmployeeData
}.

Definition empty_contact : ContactInfo :=
  {| contact_scalars := ∅; contact_address := None |}.

Definition empty_data : EmployeeData :=
  {| data_scalars := ∅; data_personal_info := None;
     data_contact_info := None; data_employment_data := None |}.

(** ** Parsed events: the dicts built by the [_extract_*] methods *)

Record NewEmployee := {
  ne_employee_id : option string;
  ne_first_name : option string;
  ne_last_name : option string;
  ne_full_name : string;
  ne_email_address : option string;
  ne_phone_number : option string;
  ne_birth_date : option string;
  ne_gender : option string;
  ne_ethnicity : option string;
  ne_nationality : option string;
  ne_marital_status : option string;
  ne_address_line1 : option string;
  ne_address_line2 : option string;
  ne_city : option string;
  ne_state_province : option string;
  ne_postal_code : option string;
  ne_country_code : option string;
  ne_hire_date : option string;
  ne_is_active : bool;
  ne_effective_date : Z;
  ne_expiry_date : Z;
  ne_is_current : bool
}.

Record AddressUpdate := {
  au_employee_id : option string;
  au_address_line1 : option string;
  au_address_line2 : option string;
  au_city : option string;
  au_state_province : option string;
  au_postal_code : option string;
  au_country_code : option string;
  au_effective_date : Z
}.

Record NameAddressUpdate := {
  nu_employee_id : option string;
  nu_last_name : option string;
  nu_address_line1 : option string;
  nu_address_line2 : option string;
  nu_city : option string;
  nu_state_province : option string;
  nu_postal_code : option string;
  nu_country_code : option string;
  nu_effective_date : Z
}.

(** The three lists of [parsed_data] that [set_employee] reads (the
    [metadata] entry is only logged). *)
Record ParsedData := {
  new_employees : list NewEmployee;
  address_updates : list AddressUpdate;
  name_and_address_updates : list NameAddressUpdate
}.

(** [today] is the value of [date.today()] during the run. *)
Definition _extract_new_employee_data (today : Z) (employee_data : EmployeeData)
  : NewEmployee :=
  let personal_info := default ∅ (data_personal_info employee_data) in
  let contact_info := default empty_contact (data_contact_info employee_data) in
  let address := default ∅ (contact_address contact_info) in
  let employment_data := default ∅ (data_employment_data employee_data) in
  {| ne_employee_id := get (data_scalars employee_data) "employee_id";
     ne_first_name := get personal_info "first_name";
     ne_last_name := get personal_info "last_name";
     ne_full_name :=
       strip (py_str (get_default personal_info "first_name" "") +:+ " "
              +:+ py_str (get_default personal_info "last_name" ""));
     ne_email_address := get (contact_scalars contact_info) "email_address";
     ne_phone_number := get (contact_scalars contact_info) "phone_number";
     ne_birth_date := get personal_info "birth_date";
     ne_gender := get personal_info "gender";
     ne_ethnicity := get personal_info "ethnicity";
     ne_nationality := get personal_info "nationality";
     ne_marital_status := get personal_info "marital_status";
     ne_address_line1 := get address "address_line1";
     ne_address_line2 := get address "address_line2";
     ne_city := get address "city";
     ne_state_province := get address "state_province";
     ne_postal_code := get address "postal_code";
     ne_country_code := get address "country_code";
     ne_hire_date := get employment_data "hire_date";
     ne_is_active := true;
     ne_effective_date := today;
     ne_expiry_date := Date.date 9999 12 31;
     ne_is_current := true |}.

Definition _extract_address_update_data (today : Z) (employee_data : EmployeeData)
  : AddressUpdate :=
  let contact_info := default empty_contact (data_contact_info employee_data) in
  let address := default ∅ (contact_address contact_info) in
  {| au_employee_id := get (data_scalars employee_data) "employee_id";
     au_address_line1 := get address "address_line1";
     au_address_line2 := get address "address_line2";
     au_city := get address "city";
     au_state_province := get address "state_province";
     au_postal_code := get address "postal_code";
     au_country_code := get address "country_code";
     au_effective_date := today |}.

Definition _extract_name_address_update_data (today : Z)
    (employee_data : EmployeeData) : NameAddressUpdate :=
  let personal_info := default ∅ (data_personal_info employee_data) in
  let contact_info := default empty_contact (data_contact_info employee_data) in
  let address := default ∅ (contact_address contact_info) in
  {| nu_employee_id := get (data_scalars employee_data) "employee_id";
     nu_last_name := get personal_info "last_name";
     nu_address_line1 := get address "address_line1";
     nu_address_line2 := get address "address_line2";
     nu_city := get address "city";
     nu_state_province := get address "state_province";
     nu_postal_code := get address "postal_code";
     nu_country_code := get address "country_code";
     nu_effective_date := today |}.

Definition no_events : ParsedData :=
  {| new_employees := []; address_updates := [];
     name_and_address_updates := [] |}.

(** The body of the [for employee_record in ...] loop: append to the list
    the operation type names; any other operation type falls through the
    [if]/[elif] chain. *)
Definition parse_record (today : Z) (parsed_data : ParsedData)
    (employee_record : EmployeeRecord) : ParsedData :=
  let op := default "" (operation_type employee_record) in
  let data := default empty_data (employee_data employee_record) in
  if bool_decide (op = "INSERT") then
    {| new_employees :=
         new_employees parsed_data ++ [_extract_new_employee_data today data];
       address_updates := address_updates parsed_data;
       name_and_address_updates := name_and_address_updates parsed_data |}
  else if bool_decide (op = "UPDATE_ADDRESS") then
    {| new_employees := new_employees parsed_data;
       address_updates :=
         address_updates parsed_data ++ [_extract_address_update_data today data];
       name_and_address_updates := name_and_address_updates parsed_data |}
  else if bool_decide (op = "UPDATE_NAME_ADDRESS") then
    {| new_employees := new_employees parsed_data;
       address_updates := address_updates parsed_data;
       name_and_address_updates :=
         name_and_address_updates parsed_data
           ++ [_extract_name_address_update_data today data] |}
  else parsed_data.

(** [parse_employee_data], from the loaded [employees] array on. *)
Definition parse_employee_data (today : Z) (employees : list EmployeeRecord)
  : ParsedData :=
  fold_left (parse_record today) employees no_events.

(** ** The table [hr.dim_employee] *)

(** One row, with the columns the program names.  Text and date-of-birth
    style columns hold NULL or the text bound to them; the validity
    dates hold date ordinals; the audit columns hold the timestamp of
    the writing transaction. *)
Record Row := {
  employee_key : Z;
  employee_id : option string;
  first_name : option string;
  last_name : option string;
  full_name : option string;
  email_address : option string;
  phone_number : option string;
  birth_date : option string;
  gender : option string;
  ethnicity : option string;
  nationality : option string;
  marital_status : option string;
  address_line1 : option string;
  address_line2 : option string;
  city : option string;
  state_province : option string;
  postal_code : option string;
  country_code : option string;
  hire_date : option string;
  termination_date : option string;
  is_active : option bool;
  effective_date : Z;
  expiry_date : Z;
  is_current : bool;
  created_date : Z;
  updated_date : Z
}.

#[global] Instance Row_eq_dec : EqDecision Row.
Proof. solve_decision. Defined.

(** Modelled from the spec: the table's declaration is not part of the
    source.  The surrogate key [employee_key] is never written by the
    program; it is unique per row and monotonically assigned by the
    store, here from the counter [next_key]. *)
Record Db := {
  rows : list Row;
  next_key : Z
}.

(** [psycopg2.Error] is the only exception the loading code handles by
    name. *)
Inductive exn := psycopg2_Error.

Inductive result (A : Type) :=
| Ok (a : A)
| Raise (e : exn).
Arguments Ok {A} a.
Arguments Raise {A} e.

Definition bind {A B : Type} (m : result A) (k : A -> result B) : result B :=
  match m with
  | Ok a => k a
  | Raise e => Raise e
  end.

Notation "'try!' x := m 'in' k" := (bind m (fun x => k))
  (at level 10, x name, m at level 100, k at level 200).

(** [col = %s] in a WHERE clause: NULL on either side is not true. *)
Definition sql_eq (col param : option string) : bool :=
  match col, param with
  | Some a, Some b => bool_decide (a = b)
  | _, _ => false
  end.

(** The row bound by the INSERT of [_insert_new_employees]. *)
Definition new_employee_row (key now : Z) (employee : NewEmployee) : Row :=
  {| employee_key := key;
     employee_id := ne_employee_id employee;
     first_name := ne_first_name employee;
     last_name := ne_last_name employee;
     full_name := Some (ne_full_name employee);
     email_address := ne_email_address employee;
     phone_number := ne_phone_number employee;
     birth_date := ne_birth_date employee;
     gender := ne_gender employee;
     ethnicity := ne_ethnicity employee;
     nationality := ne_nationality employee;
     marital_status := ne_marital_status employee;
     address_line1 := ne_address_line1 employee;
     address_line2 := ne_address_line2 employee;
     city := ne_city employee;
     state_province := ne_state_province employee;
     postal_code := ne_postal_code employee;
     country_code := ne_country_code employee;
     hire_date := ne_hire_date employee;
     termination_date := None;
     is_active := Some (ne_is_active employee);
     effective_date := ne_effective_date employee;
     expiry_date := ne_expiry_date employee;
     is_current := ne_is_current employee;
     created_date := now;
     updated_date := now |}.

(** WHERE clause of [close_sql]. *)
Definition close_where (id : option string) (r : Row) : bool :=
  sql_eq (employee_id r) id && is_current r.

(** SET clause of [close_sql]. *)
Definition close_set (eff now : Z) (r : Row) : Row :=
  {| employee_key := employee_key r;
     employee_id := employee_id r;
     first_name := first_name r;
     last_name := last_name r;
     full_name := full_name r;
     email_address := email_address r;
     phone_number := phone_number r;
     birth_date := birth_date r;
     gender := gender r;
     ethnicity := ethnicity r;
     nationality := nationality r;
     marital_status := marital_status r;
     address_line1 := address_line1 r;
     address_line2 := address_line2 r;
     city := city r;
     state_province := state_province r;
     postal_code := postal_code r;
     country_code := country_code r;
     hire_date := hire_date r;
     termination_date := termination_date r;
     is_active := is_active r;
     effective_date := effective_date r;
     expiry_date := Date.minus_one_day eff;
     is_current := false;
     created_date := created_date r;
     updated_date := now |}.

(** [close_sql] as a function on the table: every row the WHERE clause
    selects is rewritten. *)
Definition close_sql (eff : Z) (id : option string) (now : Z) (t : list Row)
  : list Row :=
  map (fun r => if close_where id r then close_set eff now r else r) t.

(** WHERE clause of [select_sql]. *)
Definition select_where (id : option string) (eff : Z) (r : Row) : bool :=
  sql_eq (employee_id r) id && (expiry_date r =? Date.minus_one_day eff).

(** [ORDER BY employee_key DESC LIMIT 1]: a row of greatest key, the
    earliest stored one among equal keys. *)
Fixpoint greatest_key (l : list Row) : option Row :=
  match l with
  | [] => None
  | r :: l' =>
      match greatest_key l' with
      | Some r' => if employee_key r <? employee_key r' then Some r' else Some r
      | None => Some r
      end
  end.

(** [select_sql] followed by [fetchone()].  The whole row stands for the
    fetched tuple; the callers read only the columns of the SELECT list. *)
Definition select_sql (id : option string) (eff : Z) (t : list Row)
  : option Row :=
  greatest_key (List.filter (select_where id eff) t).

(** [insert_params] of [_update_employee_addresses]: [existing_data]
    supplies the fourteen selected columns, [update] the address and the
    effective date. *)
Definition address_version (key now : Z) (existing_data : Row)
    (update : AddressUpdate) : Row :=
  {| employee_key := key;
     employee_id := employee_id existing_data;
     first_name := first_name existing_data;
     last_name := last_name existing_data;
     full_name := full_name existing_data;
     email_address := email_address existing_data;
     phone_number := phone_number existing_data;
     birth_date := birth_date existing_data;
     gender := gender existing_data;
     ethnicity := ethnicity existing_data;
     nationality := nationality existing_data;
     marital_status := marital_status existing_data;
     address_line1 := au_address_line1 update;
     address_line2 := au_address_line2 update;
     city := au_city update;
     state_province := au_state_province update;
     postal_code := au_postal_code update;
     country_code := au_country_code update;
     hire_date := hire_date existing_data;
     termination_date := termination_date existing_data;
     is_active := is_active existing_data;
     effective_date := au_effective_date update;
     expiry_date := Date.date 9999 12 31;
     is_current := true;
     created_date := now;
     updated_date := now |}.

(** [insert_params] of [_update_employee_names_addresses]: the SELECT
    list has neither [last_name] nor [full_name]; the full name is
    rebuilt by an f-string. *)
Definition name_address_version (key now : Z) (existing_data : Row)
    (update : NameAddressUpdate) : Row :=
  {| employee_key := key;
     employee_id := employee_id existing_data;
     first_name := first_name existing_data;
     last_name := nu_last_name update;
     full_name :=
       Some (py_str (first_name existing_data) +:+ " "
             +:+ py_str (nu_last_name update));
     email_address := email_address existing_data;
     phone_number := phone_number existing_data;
     birth_date := birth_date existing_data;
     gender := gender existing_data;
     ethnicity := ethnicity existing_data;
     nationality := nationality existing_data;
     marital_status := marital_status existing_data;
     address_line1 := nu_address_line1 update;
     address_line2 := nu_address_line2 update;
     city := nu_city update;
     state_province := nu_state_province update;
     postal_code := nu_postal_code update;
     country_code := nu_country_code update;
     hire_date := hire_date existing_data;
     termination_date := termination_date existing_data;
     is_active := is_active existing_data;
     effective_date := nu_effective_date update;
     expiry_date := Date.date 9999 12 31;
     is_current := true;
     created_date := now;
     updated_date := now |}.

(** ** Statements and the loading loops *)

Section Store.

(** The constraints declared on [hr.dim_employee] are not part of the
    source: [table_ok t] says the store accepts the table [t].  A
    writing statement whose result the store refuses raises
    [psycopg2.Error]. *)
Variable table_ok : list Row -> bool.

(** [CURRENT_TIMESTAMP], the start time of the transaction. *)
Variable now : Z.

(** [cursor.execute] of a statement that rewrites the table to [t]. *)
Definition execute_write (t : list Row) (key : Z) : result Db :=
  if table_ok t then Ok {| rows := t; next_key := key |}
  else Raise psycopg2_Error.

(** [cursor.execute(insert_sql, employee)] *)
Definition execute_insert (db : Db) (mk : Z -> Row) : result Db :=
  execute_write (rows db ++ [mk (next_key db)]) (next_key db + 1).

(** [cursor.execute(close_sql, (effective_date, employee_id))] *)
Definition execute_close (db : Db) (eff : Z) (id : option string) : result Db :=
  execute_write (close_sql eff id now (rows db)) (next_key db).

(** The loop of [_insert_new_employees]; [count] is the running count.
    The [except] clause logs and re-raises. *)
Fixpoint insert_loop (new_employees : list NewEmployee) (count : nat) (db : Db)
  : result (nat * Db) :=
  match new_employees with
  | [] => Ok (count, db)
  | employee :: rest =>
      try! db1 := execute_insert db (fun key => new_employee_row key now employee) in
      insert_loop rest (S count) db1
  end.

Definition _insert_new_employees (new_employees : list NewEmployee) (db : Db)
  : result (nat * Db) :=
  insert_loop new_employees 0%nat db.

(** One iteration of the loop of [_update_employee_addresses]: close,
    select, and insert only [if existing_data]. *)
Definition address_step (update : AddressUpdate) (count : nat) (db : Db)
  : result (nat * Db) :=
  try! db1 := execute_close db (au_effective_date update) (au_employee_id update) in
  match select_sql (au_employee_id update) (au_effective_date update) (rows db1) with
  | Some existing_data =>
      try! db2 := execute_insert db1
                    (fun key => address_version key now existing_data update) in
      Ok (S count, db2)
  | None => Ok (count, db1)
  end.

Fixpoint address_loop (address_updates : list AddressUpdate) (count : nat)
    (db : Db) : result (nat * Db) :=
  match address_updates with
  | [] => Ok (count, db)
  | update :: rest =>
      try! s := address_step update count db in
      address_loop rest (fst s) (snd s)
  end.

Definition _update_employee_addresses (address_updates : list AddressUpdate)
    (db : Db) : result (nat * Db) :=
  address_loop address_updates 0%nat db.

(** One iteration of the loop of [_update_employee_names_addresses]. *)
Definition name_address_step (update : NameAddressUpdate) (count : nat) (db : Db)
  : result (nat * Db) :=
  try! db1 := execute_close db (nu_effective_date update) (nu_employee_id update) in
  match select_sql (nu_employee_id update) (nu_effective_date update) (rows db1) with
  | Some existing_data =>
      try! db2 := execute_insert db1
                    (fun key => name_address_version key now existing_data update) in
      Ok (S count, db2)
  | None => Ok (count, db1)
  end.

Fixpoint name_address_loop (name_updates : list NameAddressUpdate) (count : nat)
    (db : Db) : result (nat * Db) :=
  match name_updates with
  | [] => Ok (count, db)
  | update :: rest =>
      try! s := name_address_step update count db in
      name_address_loop rest (fst s) (snd s)
  end.

Definition _update_employee_names_addresses
    (name_updates : list NameAddressUpdate) (db : Db) : result (nat * Db) :=
  name_address_loop name_updates 0%nat db.

(** The [try] body of [set_employee]: the three loops in their fixed
    order, on one cursor. *)
Definition set_employee_body (parsed_data : ParsedData) (db : Db)
  : result (nat * nat * nat * Db) :=
  try! r1 := _insert_new_employees (new_employees parsed_data) db in
  try! r2 := _update_employee_addresses (address_updates parsed_data) (snd r1) in
  try! r3 := _update_employee_names_addresses
               (name_and_address_updates parsed_data) (snd r2) in
  Ok (fst r1, fst r2, fst r3, snd r3).

(** [set_employee]: commit and return [True], or on any exception roll
    the transaction back and return [False]. *)
Definition set_employee (parsed_data : ParsedData) (db : Db) : bool * Db :=
  match set_employee_body parsed_data db with
  | Ok (_, _, _, db') => (true, db')
  | Raise _ => (false, db)
  end.

End Store.

(** ** Data quality checks *)

(** Number of rows of [t] with [is_current] whose [employee_id] is [id];
    GROUP BY puts the NULL ids in one group. *)
Definition current_count (id : option string) (t : list Row) : nat :=
  length (List.filter (fun r => is_current r && bool_decide (employee_id r = id)) t).

(** [dup_check_sql]: one [(employee_id, COUNT)] per group of current
    rows with more than one row (SQL fixes no order among the groups). *)
Definition dup_check_sql (t : list Row) : list (option string * nat) :=
  let current := List.filter is_current t in
  let groups := remove_dups (map employee_id current) in
  List.filter (fun g => (1 <? snd g)%nat)
    (map (fun id => (id, current_count id t)) groups).

(** [date_check_sql] *)
Definition date_check_sql (t : list Row) : list (option string * Z * Z) :=
  map (fun r => (employee_id r, effective_date r, expiry_date r))
    (List.filter (fun r => expiry_date r <=? effective_date r) t).

(** [validate_data_quality]: two SELECTs, no writing statement. *)
Definition validate_data_quality (db : Db) : bool :=
  match dup_check_sql (rows db) with
  | _ :: _ => false
  | [] =>
      match date_check_sql (rows db) with
      | _ :: _ => false
      | [] => true
      end
  end.

(** How [main] ends once the file is parsed. *)
Inductive Outcome :=
| Passed        (* "data quality validation passed" *)
| Warned        (* "data quality issues detected", exit status 0 *)
| Failed.       (* "ETL process failed", [sys.exit(1)] *)

(** Steps 2 to 4 of [main]. *)
Definition main (table_ok : list Row -> bool) (now today : Z)
    (employees : list EmployeeRecord) (db : Db) : Outcome * Db :=
  let parsed_data := parse_employee_data today employees in
  match set_employee table_ok now parsed_data db with
  | (true, db') =>
      if validate_data_quality db' then (Passed, db') else (Warned, db')
  | (false, db') => (Failed, db')
  end.

(** A store that declares no constraint. *)
Definition unconstrained (t : list Row) : bool := true.

(** ** Vocabulary of the properties *)

(** The operation type of a record, as the [if]/[elif] chain compares it. *)
Definition kind_is (k : string) (r : EmployeeRecord) : bool :=
  bool_decide (default "" (operation_type r) = k).

(** The operation types the [if]/[elif] chain names. *)
Definition supported (r : EmployeeRecord) : bool :=
  kind_is "INSERT" r || kind_is "UPDATE_ADDRESS" r
  || kind_is "UPDATE_NAME_ADDRESS" r.

(** [employee_record.get('employee_data', {})] *)
Definition data_of (r : EmployeeRecord) : EmployeeData :=
  default empty_data (employee_data r).

(** The store part of a loop's result. *)
Definition store_of {A : Type} (m : result (A * Db)) : result Db :=
  try! s := m in Ok (snd s).

(** The batch as the specification words it: each event is classified
    and applied on its own, in input order, against the store left by
    the event before it.  The per-kind operations are the program's. *)
Definition spec_apply_event (table_ok : list Row -> bool) (now today : Z)
    (r : EmployeeRecord) (db : Db) : result Db :=
  if kind_is "INSERT" r then
    store_of (_insert_new_employees table_ok now
                [_extract_new_employee_data today (data_of r)] db)
  else if kind_is "UPDATE_ADDRESS" r then
    store_of (_update_employee_addresses table_ok now
                [_extract_address_update_data today (data_of r)] db)
  else if kind_is "UPDATE_NAME_ADDRESS" r then
    store_of (_update_employee_names_addresses table_ok now
                [_extract_name_address_update_data today (data_of r)] db)
  else Ok db.

Fixpoint spec_apply_in_input_order (table_ok : list Row -> bool) (now today : Z)
    (events : list EmployeeRecord) (db : Db) : result Db :=
  match events with
  | [] => Ok db
  | r :: rest =>
      try! db1 := spec_apply_event table_ok now today r db in
      spec_apply_in_input_order table_ok now today rest db1
  end.

(** The batch regrouped the way [parsed_data] holds it: by operation
    type, input order kept inside each type. *)
Definition by_kind (events : list EmployeeRecord) : list EmployeeRecord :=
  List.filter (kind_is "INSERT") events
  ++ List.filter (kind_is "UPDATE_ADDRESS") events
  ++ List.filter (kind_is "UPDATE_NAME_ADDRESS") events.

(** The rows of a table that belong to the entity [id]. *)
Definition entity_rows (id : option string) (t : list Row) : list Row :=
  List.filter (fun r => sql_eq (employee_id r) id) t.

(** The [city] of the current rows of a store. *)
Definition current_cities (db : Db) : list (option string) :=
  map city (List.filter is_current (rows db)).

(** The [address_line1] of the current rows of a store. *)
Definition current_address_line1 (db : Db) : list (option string) :=
  map address_line1 (List.filter is_current (rows db)).

(** The validity interval and flag of each row of a store. *)
Definition validity (db : Db) : list (Z * Z * bool) :=
  map (fun r => (effective_date r, expiry_date r, is_current r)) (rows db).

(** A table keeps the invariant the duplicate check looks for. *)
Definition at_most_one_current (t : list Row) : Prop :=
  forall id, (current_count id t <= 1)%nat.

(** The steps shared by the two update loops: close, select, and insert
    the version [version key existing_data] when a row was fetched. *)
Definition close_select_insert (table_ok : list Row -> bool) (now : Z)
    (id : option string) (eff : Z) (version : Z -> Row -> Row)
    (count : nat) (db : Db) : result (nat * Db) :=
  try! db1 := execute_close table_ok now db eff id in
  match select_sql id eff (rows db1) with
  | Some existing_data =>
      try! db2 := execute_insert table_ok db1
                    (fun key => version key existing_data) in
      Ok (S count, db2)
  | None => Ok (count, db1)
  end.

(** [t1] is [t] with every current row of [id] closed the day before
    [eff], row for row: the other rows are the same, and a closed row
    differs from the old one in the columns of the SET clause only. *)
Definition every_current_closed (id : option string) (eff : Z)
    (t t1 : list Row) : Prop :=
  length t1 = length t
  /\ forall i r, nth_error t i = Some r ->
       exists r1, nth_error t1 i = Some r1
         /\ employee_key r1 = employee_key r
         /\ employee_id r1 = employee_id r
         /\ if sql_eq (employee_id r) id && is_current r
            then expiry_date r1 = Date.minus_one_day eff
                 /\ is_current r1 = false
                 /\ exists stamp, r1 = close_set eff stamp r
            else r1 = r.

(** [snap] is, among the rows of [id] in [t1] that expire the day before
    [eff], one of greatest [employee_key]. *)
Definition latest_expiring (id : option string) (eff : Z) (t1 : list Row)
    (snap : Row) : Prop :=
  In snap t1
  /\ sql_eq (employee_id snap) id = true
  /\ expiry_date snap = Date.minus_one_day eff
  /\ forall r, In r t1 -> sql_eq (employee_id r) id = true ->
       expiry_date r = Date.minus_one_day eff ->
       employee_key r <= employee_key snap.

(** What one update step leaves: the closed table alone when no row of
    [id] expires the day before [eff], else the closed table followed by
    the version built from the latest such row. *)
Definition close_then_version (id : option string) (eff : Z)
    (version : Z -> Row -> Row) (count : nat) (db : Db)
    (count' : nat) (db' : Db) : Prop :=
  exists t1,
    every_current_closed id eff (rows db) t1
    /\ (forall r, In r t1 -> sql_eq (employee_id r) id = true ->
          is_current r = false)
    /\ ((count' = count /\ rows db' = t1
         /\ forall r, In r t1 -> sql_eq (employee_id r) id = true ->
              expiry_date r <> Date.minus_one_day eff)
        \/ (exists snap,
              latest_expiring id eff t1 snap
              /\ count' = S count
              /\ rows db' = t1 ++ [version (next_key db) snap])).

(** The address columns, under the payload keys that feed them. *)
Definition address_columns (r : Row) : list (string * option string) :=
  [("address_line1", address_line1 r); ("address_line2", address_line2 r);
   ("city", city r); ("state_province", state_province r);
   ("postal_code", postal_code r); ("country_code", country_code r)].

(** The columns that both update loops copy from the fetched row. *)
Definition carried_columns (r : Row) :=
  (employee_id r, first_name r, email_address r, phone_number r,
   birth_date r, gender r, ethnicity r, nationality r, marital_status r,
   hire_date r, termination_date r, is_active r).

(** The [address] object of an event, [{}] when absent. *)
Definition event_address (data : EmployeeData) : obj :=
  default ∅ (contact_address (default empty_contact (data_contact_info data))).

(** The [personal_info] object of an event, [{}] when absent. *)
Definition event_personal_info (data : EmployeeData) : obj :=
  default ∅ (data_personal_info data).

(** ** Sample data *)

Definition insert_record (id fn ln cty : string) : EmployeeRecord :=
  {| operation_type := Some "INSERT";
     employee_data := Some
       {| data_scalars := {[ "employee_id" := Some id ]};
          data_personal_info :=
            Some {[ "first_name" := Some fn; "last_name" := Some ln ]};
          data_contact_info := Some
            {| contact_scalars := ∅;
               contact_address := Some {[ "city" := Some cty ]} |};
          data_employment_data := None |} |}.

(** An address change whose payload holds the [city] key only. *)
Definition city_data (id cty : string) : EmployeeData :=
  {| data_scalars := {[ "employee_id" := Some id ]};
     data_personal_info := None;
     data_contact_info := Some
       {| contact_scalars := ∅;
          contact_address := Some {[ "city" := Some cty ]} |};
     data_employment_data := None |}.

Definition address_record (id cty : string) : EmployeeRecord :=
  {| operation_type := Some "UPDATE_ADDRESS";
     employee_data := Some (city_data id cty) |}.

Definition name_address_record (id ln cty : string) : EmployeeRecord :=
  {| operation_type := Some "UPDATE_NAME_ADDRESS";
     employee_data := Some
       {| data_scalars := {[ "employee_id" := Some id ]};
          data_personal_info := Some {[ "last_name" := Some ln ]};
          data_contact_info := Some
            {| contact_scalars := ∅;
               contact_address := Some {[ "city" := Some cty ]} |};
          data_employment_data := None |} |}.

Definition delete_record (id : string) : EmployeeRecord :=
  {| operation_type := Some "DELETE";
     employee_data := Some (city_data id "Lima") |}.

Definition empty_db : Db := {| rows := []; next_key := 1 |}.

Definition day_2025_08_12 : Z := Date.date 2025 8 12.
Definition day_2025_08_13 : Z := Date.date 2025 8 13.

(** The store after scenario A run on 2025-08-12: one current row for
    E1, Ana Diaz of Lima. *)
Definition ana_db : Db :=
  snd (main unconstrained 0 day_2025_08_12
         [insert_record "E1" "Ana" "Diaz" "Lima"] empty_db).

(** That row. *)
Definition ana_row : Row :=
  new_employee_row 1 0
    (_extract_new_employee_data day_2025_08_12
       (data_of (insert_record "E1" "Ana" "Diaz" "Lima"))).

Definition luz : NewEmployee :=
  _extract_new_employee_data day_2025_08_13
    (data_of (insert_record "E2" "Luz" "Rojas" "Puno")).

Definition e3_update : AddressUpdate :=
  _extract_address_update_data day_2025_08_13 (city_data "E3" "Cusco").

Definition parsed_E2_E3 : ParsedData :=
  parse_employee_data day_2025_08_13
    [insert_record "E2" "Luz" "Rojas" "Puno"; address_record "E3" "Cusco"].

Definition ana_again : NewEmployee :=
  _extract_new_employee_data day_2025_08_13
    (data_of (insert_record "E1" "Ana" "Diaz" "Lima")).

Definition cusco_update : AddressUpdate :=
  _extract_address_update_data day_2025_08_13 (city_data "E1" "Cusco").

Definition lopez_update : NameAddressUpdate :=
  _extract_name_address_update_data day_2025_08_13
    (data_of (name_address_record "E1" "Lopez" "Cusco")).

(** The store after E1 was inserted twice on 2025-08-12, as Ana Diaz of
    Lima and then as Anita Diaz of Tacna: two current rows. *)
Definition twice_db : Db :=
  snd (main unconstrained 0 day_2025_08_12
         [insert_record "E1" "Ana" "Diaz" "Lima";
          insert_record "E1" "Anita" "Diaz" "Tacna"] empty_db).

(** The store after Ana Diaz was inserted on 2025-08-12 with a street
    address in Lima. *)
Definition ana_street_db : Db :=
  snd (main unconstrained 0 day_2025_08_12
         [{| operation_type := Some "INSERT";
             employee_data := Some
               {| data_scalars := {[ "employee_id" := Some "E1" ]};
                  data_personal_info :=
                    Some {[ "first_name" := Some "Ana";
                            "last_name" := Some "Diaz" ]};
                  data_contact_info := Some
                    {| contact_scalars := ∅;
                       contact_address :=
                         Some {[ "address_line1" := Some "Av. Larco 101";
                                 "city" := Some "Lima" ]} |};
                  data_employment_data := None |} |}] empty_db).

(** ** Vocabulary of the further properties *)

(** [s] begins with a whitespace character. *)
Definition starts_with_space (s : string) : bool :=
  negb (Nat.eqb (space_width (list_ascii_of_string s)) 0).

(** [s] ends with a whitespace character. *)
Definition ends_with_space (s : string) : bool :=
  negb (Nat.eqb (space_width_rev (rev (list_ascii_of_string s))) 0).

(** A first name that begins with U+00A0 and a last name that ends with
    U+2003, as their UTF-8 bytes. *)
Definition padded_names_data : EmployeeData :=
  {| data_scalars := {[ "employee_id" := Some "E7" ]};
     data_personal_info :=
       Some {[ "first_name" :=
                 Some (String (ascii_of_N 194) (String (ascii_of_N 160) "Ana"));
               "last_name" :=
                 Some ("Diaz" +:+ String (ascii_of_N 226)
                                   (String (ascii_of_N 128)
                                      (String (ascii_of_N 131) ""))) ]};
     data_contact_info := None;
     data_employment_data := None |}.

(** The rows bound by the INSERTs of [_insert_new_employees] for a list
    of employees, the keys counted up from [key]. *)
Fixpoint keyed_rows (key now : Z) (l : list NewEmployee) : list Row :=
  match l with
  | [] => []
  | employee :: rest =>
      new_employee_row key now employee :: keyed_rows (key + 1) now rest
  end.

(** Every column except the three that the SET clause of [close_sql]
    writes. *)
Definition frozen_columns (r : Row) :=
  (employee_key r, carried_columns r, last_name r, full_name r,
   address_columns r, effective_date r, created_date r).

(** From [db] to [db'] no row was deleted or moved, and a row was
    changed at most by being closed: it keeps its frozen columns, and
    it differs only if it was current and no longer is. *)
Definition history_kept (db db' : Db) : Prop :=
  forall i r, nth_error (rows db) i = Some r ->
    exists r', nth_error (rows db') i = Some r'
      /\ frozen_columns r' = frozen_columns r
      /\ (r' = r \/ (is_current r = true /\ is_current r' = false)).

(** Both conditions [validate_data_quality] looks for. *)
Definition quality_holds (t : list Row) : Prop :=
  at_most_one_current t
  /\ forall r, In r t -> effective_date r < expiry_date r.

(** A batch of four events: an insert of E2, address changes of E1 and
    of the unknown E3, and a name-and-address change of E1. *)
Definition parsed_mixed : ParsedData :=
  parse_employee_data day_2025_08_13
    [insert_record "E2" "Luz" "Rojas" "Puno"; address_record "E1" "Cusco";
     address_record "E3" "Cusco"; name_address_record "E1" "Lopez" "Arequipa"].

(** [r'] was appended by a run of [today] stamped [now]: it starts
    today, and it is either open (current, sentinel expiry) or already
    closed again by the same run, the day before it starts. *)
Definition appended_today (today now : Z) (r' : Row) : Prop :=
  effective_date r' = today
  /\ created_date r' = now
  /\ ((is_current r' = true /\ expiry_date r' = Date.infinite)
      \/ (is_current r' = false
          /\ expiry_date r' = Date.minus_one_day today)).

(** What a run of [today] does to a store: a row it found keeps its
    place and frozen columns and changes only by being closed the day
    before [today]; a row it added is [appended_today]. *)
Definition run_kept (today now : Z) (db db' : Db) : Prop :=
  (forall i r, nth_error (rows db) i = Some r ->
     exists r', nth_error (rows db') i = Some r'
       /\ frozen_columns r' = frozen_columns r
       /\ (r' = r
           \/ (is_current r = true /\ is_current r' = false
               /\ expiry_date r' = Date.minus_one_day today)))
  /\ (forall i r', (length (rows db) <= i)%nat ->
        nth_error (rows db') i = Some r' -> appended_today today now r').

(** The rows of [db] whose entity is not in [touched] are in [db'] as
    they were, each at its place. *)
Definition others_untouched (touched : option string -> Prop) (db db' : Db)
  : Prop :=
  forall i r, nth_error (rows db) i = Some r ->
    ~ touched (employee_id r) -> nth_error (rows db') i = Some r.

(** An event with both name keys present and [null]. *)
Definition null_names_data : EmployeeData :=
  {| data_scalars := {[ "employee_id" := Some "E9" ]};
     data_personal_info :=
       Some {[ "first_name" := None; "last_name" := None ]};
     data_contact_info := None;
     data_employment_data := None |}.

Definition e3_name_update : NameAddressUpdate :=
  _extract_name_address_update_data day_2025_08_13
    (data_of (name_address_record "E3" "Lopez" "Cusco")).

(** * Properties *)

(** ** Filtering lists *)

Lemma filter_none {A : Type} (p : A -> bool) (l : list A) :
  (forall x, In x l -> p x = false) -> List.filter p l = [].
Proof.
  induction l as [|x l IH]; intros H; simpl; [reflexivity|].
  rewrite (H x) by now left. apply IH. intros y Hy. apply H. now right.
Qed.

Lemma filter_all {A : Type} (p : A -> bool) (l : list A) :
  (forall x, In x l -> p x = true) -> List.filter p l = l.
Proof.
  induction l as [|x l IH]; intros H; simpl; [reflexivity|].
  rewrite (H x) by now left. f_equal. apply IH. intros y Hy. apply H. now right.
Qed.

Lemma filter_map_invariant {A : Type} (p : A -> bool) (f : A -> A) l :
  (forall x, p (f x) = p x) ->
  List.filter p (map f l) = map f (List.filter p l).
Proof.
  intros H. induction l as [|x l IH]; simpl; [reflexivity|].
  rewrite H. destruct (p x); simpl; now rewrite IH.
Qed.

Lemma filter_andb {A : Type} (p q : A -> bool) l :
  List.filter (fun x => p x && q x) l = List.filter q (List.filter p l).
Proof.
  induction l as [|x l IH]; simpl; [reflexivity|].
  destruct (p x); simpl; [destruct (q x)|]; now rewrite IH.
Qed.

Lemma filter_map_single {K X : Type} (f : K -> X) (q : X -> bool) (l : list K) e :
  NoDup l -> e ∈ l -> q (f e) = true ->
  (forall x, x ∈ l -> x <> e -> q (f x) = false) ->
  List.filter q (map f l) = [f e].
Proof.
  induction l as [|x l IH]; intros Hnd He Hq Hothers.
  - now apply elem_of_nil in He.
  - apply NoDup_cons in Hnd as [Hx Hnd]. simpl.
    apply elem_of_cons in He as [->|He].
    + rewrite Hq. f_equal. apply filter_none.
      intros y Hy. apply in_map_iff in Hy as (k & <- & Hk).
      apply list_elem_of_In in Hk. apply Hothers.
      * now apply elem_of_cons; right.
      * intros ->. contradiction.
    + rewrite Hothers.
      * apply IH; auto. intros y Hy. apply Hothers. now apply elem_of_cons; right.
      * now apply elem_of_cons; left.
      * intros ->. contradiction.
Qed.

(** ** The parser *)

Lemma parse_record_unsupported today acc r :
  supported r = false -> parse_record today acc r = acc.
Proof.
  unfold supported, kind_is, parse_record. intros H.
  apply orb_false_elim in H as [H H3]. apply orb_false_elim in H as [H1 H2].
  now rewrite H1, H2, H3.
Qed.

Lemma parse_fold_new today evs acc :
  new_employees (fold_left (parse_record today) evs acc)
  = new_employees acc
    ++ map (fun r => _extract_new_employee_data today (data_of r))
         (List.filter (kind_is "INSERT") evs).
Proof.
  revert acc. induction evs as [|r evs IH]; intros acc; simpl.
  - now rewrite app_nil_r.
  - rewrite IH. unfold parse_record, kind_is, data_of.
    destruct (bool_decide_reflect (default "" (operation_type r) = "INSERT"))
      as [E|E]; simpl.
    + now rewrite <- app_assoc.
    + repeat case_bool_decide; reflexivity.
Qed.

Lemma parse_fold_address today evs acc :
  address_updates (fold_left (parse_record today) evs acc)
  = address_updates acc
    ++ map (fun r => _extract_address_update_data today (data_of r))
         (List.filter (kind_is "UPDATE_ADDRESS") evs).
Proof.
  revert acc. induction evs as [|r evs IH]; intros acc; simpl.
  - now rewrite app_nil_r.
  - rewrite IH. unfold parse_record, kind_is, data_of.
    destruct (bool_decide_reflect
                (default "" (operation_type r) = "UPDATE_ADDRESS")) as [E|E].
    + rewrite E. simpl. now rewrite <- app_assoc.
    + repeat case_bool_decide; reflexivity.
Qed.

Lemma parse_fold_name today evs acc :
  name_and_address_updates (fold_left (parse_record today) evs acc)
  = name_and_address_updates acc
    ++ map (fun r => _extract_name_address_update_data today (data_of r))
         (List.filter (kind_is "UPDATE_NAME_ADDRESS") evs).
Proof.
  revert acc. induction evs as [|r evs IH]; intros acc; simpl.
  - now rewrite app_nil_r.
  - rewrite IH. unfold parse_record, kind_is, data_of.
    destruct (bool_decide_reflect
                (default "" (operation_type r) = "UPDATE_NAME_ADDRESS")) as [E|E].
    + rewrite E. simpl. now rewrite <- app_assoc.
    + repeat case_bool_decide; reflexivity.
Qed.

(** C6, as the claim states it, fails: a record tagged [DELETE] raises
    nothing and leaves no trace in the parsed data. *)
Lemma C6_unknown_kind_is_dropped :
  parse_employee_data day_2025_08_13
    [insert_record "E1" "Ana" "Diaz" "Lima"; delete_record "E1"]
  = parse_employee_data day_2025_08_13 [insert_record "E1" "Ana" "Diaz" "Lima"].
Proof. reflexivity. Qed.

(** C6 (amended): a record whose operation type is none of [INSERT],
    [UPDATE_ADDRESS], [UPDATE_NAME_ADDRESS] is skipped without any error:
    parsing the batch gives the same result as parsing the batch with
    that record removed. *)
Theorem C6_unsupported_kind_skipped today before r after :
  supported r = false ->
  parse_employee_data today (before ++ r :: after)
  = parse_employee_data today (before ++ after).
Proof.
  intros H. unfold parse_employee_data.
  rewrite !fold_left_app. simpl.
  now rewrite parse_record_unsupported.
Qed.

Lemma C6_unsupported_kind_skipped_witness :
  supported (delete_record "E1") = false
  /\ parse_employee_data day_2025_08_13
       ([insert_record "E1" "Ana" "Diaz" "Lima"]
          ++ delete_record "E1" :: [address_record "E1" "Cusco"])
     = parse_employee_data day_2025_08_13
         ([insert_record "E1" "Ana" "Diaz" "Lima"]
            ++ [address_record "E1" "Cusco"]).
Proof.
  split; [reflexivity|].
  apply (C6_unsupported_kind_skipped day_2025_08_13
           [insert_record "E1" "Ana" "Diaz" "Lima"] (delete_record "E1")
           [address_record "E1" "Cusco"]).
  reflexivity.
Defined.

(** ** Order of application *)

Lemma kind_is_exclusive k1 k2 r :
  k1 <> k2 -> kind_is k1 r = true -> kind_is k2 r = false.
Proof.
  unfold kind_is. intros Hne H1.
  apply bool_decide_eq_true in H1. apply bool_decide_eq_false. congruence.
Qed.

Lemma spec_apply_app table_ok now today l1 l2 db :
  spec_apply_in_input_order table_ok now today (l1 ++ l2) db
  = try! db1 := spec_apply_in_input_order table_ok now today l1 db in
    spec_apply_in_input_order table_ok now today l2 db1.
Proof.
  revert db. induction l1 as [|r l1 IH]; intros db; simpl; [reflexivity|].
  destruct (spec_apply_event table_ok now today r db); simpl; auto.
Qed.

Lemma insert_loop_in_order table_ok now today evs count db :
  store_of (insert_loop table_ok now
              (map (fun r => _extract_new_employee_data today (data_of r))
                 (List.filter (kind_is "INSERT") evs)) count db)
  = spec_apply_in_input_order table_ok now today
      (List.filter (kind_is "INSERT") evs) db.
Proof.
  revert count db. induction evs as [|r evs IH]; intros count db; simpl.
  - reflexivity.
  - destruct (kind_is "INSERT" r) eqn:K; simpl; [|apply IH].
    unfold spec_apply_event, _insert_new_employees. rewrite K. simpl.
    destruct (execute_insert table_ok db _) as [db1|e]; simpl; [apply IH|reflexivity].
Qed.

Lemma address_loop_in_order table_ok now today evs count db :
  store_of (address_loop table_ok now
              (map (fun r => _extract_address_update_data today (data_of r))
                 (List.filter (kind_is "UPDATE_ADDRESS") evs)) count db)
  = spec_apply_in_input_order table_ok now today
      (List.filter (kind_is "UPDATE_ADDRESS") evs) db.
Proof.
  revert count db. induction evs as [|r evs IH]; intros count db; simpl.
  - reflexivity.
  - destruct (kind_is "UPDATE_ADDRESS" r) eqn:K; simpl; [|apply IH].
    unfold spec_apply_event, _update_employee_addresses.
    rewrite (kind_is_exclusive "UPDATE_ADDRESS" "INSERT" r), K by (easy || discriminate).
    simpl. destruct (address_step table_ok now _ 0%nat db) as [[c1 db1]|e] eqn:S0.
    + assert (S1 : exists c', address_step table_ok now
                (_extract_address_update_data today (data_of r)) count db
                = Ok (c', db1)).
      { revert S0. unfold address_step.
        destruct (execute_close _ _ _ _ _) as [d1|]; simpl; [|discriminate].
        destruct (select_sql _ _ _); simpl.
        - destruct (execute_insert _ _ _) as [d2|]; simpl; [|discriminate].
          intros [= <- <-]. eauto.
        - intros [= <- <-]. eauto. }
      destruct S1 as [c' ->]. simpl. apply IH.
    + assert (S1 : address_step table_ok now
                (_extract_address_update_data today (data_of r)) count db
                = Raise e).
      { revert S0. unfold address_step.
        destruct (execute_close _ _ _ _ _) as [d1|]; simpl; [|congruence].
        destruct (select_sql _ _ _); simpl; [|discriminate].
        destruct (execute_insert _ _ _) as [d2|]; simpl; [discriminate|congruence]. }
      rewrite S1. reflexivity.
Qed.

Lemma name_address_loop_in_order table_ok now today evs count db :
  store_of (name_address_loop table_ok now
              (map (fun r => _extract_name_address_update_data today (data_of r))
                 (List.filter (kind_is "UPDATE_NAME_ADDRESS") evs)) count db)
  = spec_apply_in_input_order table_ok now today
      (List.filter (kind_is "UPDATE_NAME_ADDRESS") evs) db.
Proof.
  revert count db. induction evs as [|r evs IH]; intros count db; simpl.
  - reflexivity.
  - destruct (kind_is "UPDATE_NAME_ADDRESS" r) eqn:K; simpl; [|apply IH].
    unfold spec_apply_event, _update_employee_names_addresses.
    rewrite (kind_is_exclusive "UPDATE_NAME_ADDRESS" "INSERT" r),
      (kind_is_exclusive "UPDATE_NAME_ADDRESS" "UPDATE_ADDRESS" r), K
      by (easy || discriminate).
    simpl. destruct (name_address_step table_ok now _ 0%nat db) as [[c1 db1]|e] eqn:S0.
    + assert (S1 : exists c', name_address_step table_ok now
                (_extract_name_address_update_data today (data_of r)) count db
                = Ok (c', db1)).
      { revert S0. unfold name_address_step.
        destruct (execute_close _ _ _ _ _) as [d1|]; simpl; [|discriminate].
        destruct (select_sql _ _ _); simpl.
        - destruct (execute_insert _ _ _) as [d2|]; simpl; [|discriminate].
          intros [= <- <-]. eauto.
        - intros [= <- <-]. eauto. }
      destruct S1 as [c' ->]. simpl. apply IH.
    + assert (S1 : name_address_step table_ok now
                (_extract_name_address_update_data today (data_of r)) count db
                = Raise e).
      { revert S0. unfold name_address_step.
        destruct (execute_close _ _ _ _ _) as [d1|]; simpl; [|congruence].
        destruct (select_sql _ _ _); simpl; [|discriminate].
        destruct (execute_insert _ _ _) as [d2|]; simpl; [discriminate|congruence]. }
      rewrite S1. reflexivity.
Qed.

(** A batch of one supported kind is not regrouped. *)
Lemma by_kind_one_kind k events :
  In k ["INSERT"; "UPDATE_ADDRESS"; "UPDATE_NAME_ADDRESS"]%string ->
  (forall r, In r events -> kind_is k r = true) ->
  by_kind events = events.
Proof.
  intros Hk Hall. unfold by_kind.
  assert (Hother : forall k', k <> k' -> List.filter (kind_is k') events = []).
  { intros k' Hne. apply filter_none. intros r Hr.
    apply (kind_is_exclusive k k' r Hne), Hall, Hr. }
  destruct Hk as [<-|[<-|[<-|[]]]].
  - rewrite (filter_all _ _ Hall), !Hother by discriminate.
    now rewrite !app_nil_r.
  - rewrite (filter_all _ _ Hall), !Hother by discriminate.
    now rewrite app_nil_r.
  - rewrite (filter_all _ _ Hall), !Hother by discriminate. reflexivity.
Qed.

(** C2, as the claim states it, fails.  Ana Diaz of Lima is current; the
    batch holds a name-and-address change to Lopez of Cusco followed by
    an address change to Arequipa.  Applied in input order the current
    row ends in Arequipa; the program applies the address change first
    and ends in Cusco. *)
Lemma C2_input_order_not_kept :
  let batch := [name_address_record "E1" "Lopez" "Cusco";
                address_record "E1" "Arequipa"] in
  exists db_run db_ordered,
    store_of (set_employee_body unconstrained 0
                (parse_employee_data day_2025_08_13 batch) ana_db) = Ok db_run
    /\ spec_apply_in_input_order unconstrained 0 day_2025_08_13 batch ana_db
       = Ok db_ordered
    /\ current_cities db_run = [Some "Cusco"]
    /\ current_cities db_ordered = [Some "Arequipa"].
Proof.
  eexists; eexists.
  split; [vm_compute; reflexivity|].
  split; [vm_compute; reflexivity|].
  split; reflexivity.
Qed.

(** C2 (amended): the events of a batch are applied grouped by kind, all
    [INSERT] first, then all [UPDATE_ADDRESS], then all
    [UPDATE_NAME_ADDRESS], and in input order inside each kind; each
    event is applied against the store left by the event applied just
    before it.  The run of [set_employee] leaves the same store, or
    raises the same error, as applying the regrouped batch one event at
    a time. *)
Theorem C2_applied_by_kind_then_input_order table_ok now today events db :
  store_of (set_employee_body table_ok now
              (parse_employee_data today events) db)
  = spec_apply_in_input_order table_ok now today (by_kind events) db.
Proof.
  unfold by_kind. rewrite !spec_apply_app.
  rewrite <- (insert_loop_in_order table_ok now today events 0%nat db).
  unfold set_employee_body, parse_employee_data.
  rewrite parse_fold_new, parse_fold_address, parse_fold_name. simpl.
  unfold _insert_new_employees.
  destruct (insert_loop _ _ _ _ _) as [[c1 db1]|e]; simpl; [|reflexivity].
  rewrite spec_apply_app.
  rewrite <- (address_loop_in_order table_ok now today events 0%nat db1).
  unfold _update_employee_addresses.
  destruct (address_loop _ _ _ _ _) as [[c2 db2]|e]; simpl; [|reflexivity].
  rewrite <- (name_address_loop_in_order table_ok now today events 0%nat db2).
  unfold _update_employee_names_addresses.
  destruct (name_address_loop _ _ _ _ _) as [[c3 db3]|e]; reflexivity.
Qed.

(** ** Statements that select no row *)

Lemma close_sql_no_match eff id now t :
  (forall r, In r t -> close_where id r = false) ->
  close_sql eff id now t = t.
Proof.
  intros H. unfold close_sql. rewrite <- (map_id t) at 2.
  apply map_ext_in. intros r Hr. now rewrite (H r Hr).
Qed.

Lemma select_sql_no_match id eff t :
  (forall r, In r t -> select_where id eff r = false) ->
  select_sql id eff t = None.
Proof. intros H. unfold select_sql. now rewrite filter_none. Qed.

(** ** A change event for an entity without a row to close *)

(** In any batch, an update step for an entity that has no current row
    and no row expiring the day before the event leaves the store and
    the count as they are, without error. *)
Lemma close_select_insert_skips table_ok now id eff version count db :
  (forall r, In r (rows db) -> sql_eq (employee_id r) id = true ->
     is_current r = false /\ expiry_date r <> Date.minus_one_day eff) ->
  table_ok (rows db) = true ->
  close_select_insert table_ok now id eff version count db = Ok (count, db).
Proof.
  intros Hrows Hok.
  unfold close_select_insert, execute_close, execute_write.
  rewrite close_sql_no_match, Hok; simpl.
  - rewrite select_sql_no_match; [now destruct db|].
    intros r Hr. unfold select_where.
    destruct (sql_eq (employee_id r) id) eqn:E; [|reflexivity].
    simpl. apply Z.eqb_neq. exact (proj2 (Hrows r Hr E)).
  - intros r Hr. unfold close_where.
    destruct (sql_eq (employee_id r) id) eqn:E; [|reflexivity].
    now rewrite (proj1 (Hrows r Hr E)).
Qed.


Lemma update_addresses_single table_ok now update db :
  _update_employee_addresses table_ok now [update] db
  = address_step table_ok now update 0%nat db.
Proof.
  unfold _update_employee_addresses, address_loop.
  now destruct (address_step table_ok now update 0%nat db) as [[c d]|e].
Qed.

Lemma update_names_addresses_single table_ok now update db :
  _update_employee_names_addresses table_ok now [update] db
  = name_address_step table_ok now update 0%nat db.
Proof.
  unfold _update_employee_names_addresses, name_address_loop.
  now destruct (name_address_step table_ok now update 0%nat db) as [[c d]|e].
Qed.

Lemma insert_single table_ok now employee db :
  _insert_new_employees table_ok now [employee] db
  = let t := rows db ++ [new_employee_row (next_key db) now employee] in
    if table_ok t then Ok (1%nat, {| rows := t; next_key := next_key db + 1 |})
    else Raise psycopg2_Error.
Proof.
  unfold _insert_new_employees. simpl. unfold execute_insert, execute_write.
  now destruct (table_ok _).
Qed.



(** ** Inserting an entity that is already current *)

Lemma current_count_app id t1 t2 :
  current_count id (t1 ++ t2) = (current_count id t1 + current_count id t2)%nat.
Proof. unfold current_count. now rewrite List.filter_app, length_app. Qed.

(** C5: the program does not reject the insert of an entity that is
    already current.  E1 has a current row; [_insert_new_employees] for
    E1 raises nothing, returns the count 1 and leaves E1 with two
    current rows, the state the program's own duplicate check reports. *)
Theorem C5_second_insert_is_accepted :
  exists db',
    _insert_new_employees unconstrained 0 [ana_again] ana_db = Ok (1%nat, db')
    /\ current_count (Some "E1") (rows ana_db) = 1%nat
    /\ current_count (Some "E1") (rows db') = 2%nat
    /\ dup_check_sql (rows db') = [(Some "E1", 2%nat)]
    /\ validate_data_quality db' = false.
Proof.
  eexists. split; [vm_compute; reflexivity|].
  repeat split.
Qed.

(** ** The close-then-insert protocol *)

Lemma address_step_protocol table_ok now update count db :
  address_step table_ok now update count db
  = close_select_insert table_ok now (au_employee_id update)
      (au_effective_date update)
      (fun key existing_data => address_version key now existing_data update)
      count db.
Proof. reflexivity. Qed.

Lemma name_address_step_protocol table_ok now update count db :
  name_address_step table_ok now update count db
  = close_select_insert table_ok now (nu_employee_id update)
      (nu_effective_date update)
      (fun key existing_data => name_address_version key now existing_data update)
      count db.
Proof. reflexivity. Qed.

Lemma greatest_key_in l r :
  greatest_key l = Some r ->
  In r l /\ forall r', In r' l -> employee_key r' <= employee_key r.
Proof.
  revert r. induction l as [|x l IH]; intros r; simpl; [discriminate|].
  destruct (greatest_key l) as [m|] eqn:G.
  - destruct (IH m eq_refl) as [Hin Hmax].
    destruct (Z.ltb_spec (employee_key x) (employee_key m)); intros [= <-].
    + split; [now right|]. intros r' [<-|Hr']; [lia|auto].
    + split; [now left|]. intros r' [<-|Hr']; [lia|].
      specialize (Hmax r' Hr'). lia.
  - intros [= <-]. split; [now left|].
    intros r' [<-|Hr']; [lia|]. destruct l; [destruct Hr'|].
    simpl in G. destruct (greatest_key l); [destruct (_ <? _)|]; discriminate.
Qed.

Lemma greatest_key_none l : greatest_key l = None -> l = [].
Proof.
  destruct l as [|x l]; [reflexivity|]. simpl.
  destruct (greatest_key l); [destruct (_ <? _)|]; discriminate.
Qed.

Lemma select_where_true id eff r :
  select_where id eff r = true
  <-> sql_eq (employee_id r) id = true
      /\ expiry_date r = Date.minus_one_day eff.
Proof.
  unfold select_where. rewrite andb_true_iff, Z.eqb_eq. reflexivity.
Qed.

Lemma select_sql_latest id eff t snap :
  select_sql id eff t = Some snap -> latest_expiring id eff t snap.
Proof.
  unfold select_sql, latest_expiring. intros H.
  apply greatest_key_in in H as [Hin Hmax].
  apply filter_In in Hin as [Hin Hw]. apply select_where_true in Hw as [H1 H2].
  repeat split; auto. intros r Hr E1 E2. apply Hmax.
  apply filter_In. split; [assumption|]. now apply select_where_true.
Qed.

Lemma select_sql_none id eff t :
  select_sql id eff t = None ->
  forall r, In r t -> sql_eq (employee_id r) id = true ->
    expiry_date r <> Date.minus_one_day eff.
Proof.
  unfold select_sql. intros H r Hr E1 E2.
  apply greatest_key_none in H.
  assert (Hin : In r (List.filter (select_where id eff) t)).
  { apply filter_In. split; [assumption|]. now apply select_where_true. }
  rewrite H in Hin. destruct Hin.
Qed.

Lemma close_sql_closes id eff now t :
  every_current_closed id eff t (close_sql eff id now t).
Proof.
  unfold every_current_closed, close_sql. split; [apply length_map|].
  intros i r Hi. rewrite nth_error_map, Hi. simpl.
  eexists. split; [reflexivity|]. unfold close_where.
  destruct (sql_eq (employee_id r) id && is_current r); simpl; eauto 6.
Qed.

Lemma close_sql_leaves_none_current id eff now t r :
  In r (close_sql eff id now t) ->
  sql_eq (employee_id r) id = true -> is_current r = false.
Proof.
  unfold close_sql. rewrite in_map_iff. intros (r0 & <- & _).
  unfold close_where. destruct (sql_eq (employee_id r0) id) eqn:E; simpl.
  - destruct (is_current r0) eqn:C; simpl; auto.
  - rewrite E. discriminate.
Qed.

Lemma close_select_insert_spec table_ok now id eff version count db count' db' :
  close_select_insert table_ok now id eff version count db = Ok (count', db') ->
  close_then_version id eff version count db count' db'.
Proof.
  unfold close_select_insert, execute_close, execute_insert, execute_write.
  destruct (table_ok (close_sql eff id now (rows db))); simpl; [|discriminate].
  intros H. exists (close_sql eff id now (rows db)).
  split; [apply close_sql_closes|].
  split; [intros r; apply close_sql_leaves_none_current|].
  destruct (select_sql id eff (close_sql eff id now (rows db))) as [snap|] eqn:S.
  - right. exists snap. split; [now apply select_sql_latest|].
    destruct (table_ok _); simpl in H; [|discriminate].
    injection H as <- <-. split; reflexivity.
  - left. injection H as <- <-.
    repeat split. now apply select_sql_none.
Qed.

(** C10: in both update loops the close statement has no row limit:
    every row of the target entity that is current is rewritten, with
    [expiry_date] the day before the event's effective date and
    [is_current] false, so no row of the entity stays current; and when
    several rows of the entity then carry that expiry date, the version
    appended is built from one of greatest [employee_key]. *)
Theorem C10_closes_every_current_row_and_reads_latest
    table_ok now count db count' db' :
  (forall update,
     address_step table_ok now update count db = Ok (count', db') ->
     close_then_version (au_employee_id update) (au_effective_date update)
       (fun key snap => address_version key now snap update)
       count db count' db')
  /\ (forall update,
        name_address_step table_ok now update count db = Ok (count', db') ->
        close_then_version (nu_employee_id update) (nu_effective_date update)
          (fun key snap => name_address_version key now snap update)
          count db count' db').
Proof.
  split; intros update H.
  - rewrite address_step_protocol in H. now apply close_select_insert_spec in H.
  - rewrite name_address_step_protocol in H.
    now apply close_select_insert_spec in H.
Qed.

Lemma C10_closes_every_current_row_and_reads_latest_witness :
  exists db1 db2,
    (address_step unconstrained 0 cusco_update 0 twice_db = Ok (1%nat, db1)
     /\ close_then_version (au_employee_id cusco_update)
          (au_effective_date cusco_update)
          (fun key snap => address_version key 0 snap cusco_update)
          0 twice_db 1 db1)
    /\ (name_address_step unconstrained 0 lopez_update 0 twice_db
        = Ok (1%nat, db2)
        /\ close_then_version (nu_employee_id lopez_update)
             (nu_effective_date lopez_update)
             (fun key snap => name_address_version key 0 snap lopez_update)
             0 twice_db 1 db2).
Proof.
  eexists; eexists. split.
  - split; [vm_compute; reflexivity|].
    apply (proj1 (C10_closes_every_current_row_and_reads_latest
                    unconstrained 0 0%nat twice_db 1%nat _) cusco_update).
    vm_compute; reflexivity.
  - split; [vm_compute; reflexivity|].
    apply (proj2 (C10_closes_every_current_row_and_reads_latest
                    unconstrained 0 0%nat twice_db 1%nat _) lopez_update).
    vm_compute; reflexivity.
Defined.

(** With two current rows of E1 closed together, the version appended
    carries the first name of the later row. *)
Example latest_row_is_carried :
  exists db',
    address_step unconstrained 0 cusco_update 0 twice_db = Ok (1%nat, db')
    /\ map first_name (rows twice_db) = [Some "Ana"; Some "Anita"]
    /\ map is_current (rows db') = [false; false; true]
    /\ map first_name (rows db') = [Some "Ana"; Some "Anita"; Some "Anita"].
Proof. eexists. split; [vm_compute; reflexivity|]. repeat split. Qed.

(** ** Scenario B *)

Lemma entity_rows_close_sql id' eff id now t :
  entity_rows id' (close_sql eff id now t)
  = map (fun r => if close_where id r then close_set eff now r else r)
      (entity_rows id' t).
Proof.
  unfold entity_rows, close_sql. apply filter_map_invariant.
  intros r. now destruct (close_where id r).
Qed.

Lemma entity_rows_app id t1 t2 :
  entity_rows id (t1 ++ t2) = entity_rows id t1 ++ entity_rows id t2.
Proof. apply List.filter_app. Qed.

Lemma select_sql_entity_rows id eff t :
  select_sql id eff t
  = greatest_key
      (List.filter (fun r => expiry_date r =? Date.minus_one_day eff)
         (entity_rows id t)).
Proof. unfold select_sql, entity_rows, select_where. now rewrite filter_andb. Qed.

Lemma sql_eq_true col param :
  sql_eq col param = true -> col = param /\ exists s, param = Some s.
Proof.
  destruct col as [a|], param as [b|]; simpl; try discriminate.
  intros H. apply bool_decide_eq_true in H. subst. eauto.
Qed.

Lemma close_select_insert_inserts table_ok now id eff version count db snap :
  let t1 := close_sql eff id now (rows db) in
  table_ok t1 = true ->
  select_sql id eff t1 = Some snap ->
  table_ok (t1 ++ [version (next_key db) snap]) = true ->
  close_select_insert table_ok now id eff version count db
  = Ok (S count, {| rows := t1 ++ [version (next_key db) snap];
                    next_key := next_key db + 1 |}).
Proof.
  intros t1 H1 Hs H2.
  unfold close_select_insert, execute_close, execute_insert, execute_write.
  fold t1. rewrite H1. simpl. rewrite Hs. simpl. now rewrite H2.
Qed.

Lemma greatest_key_strict l m :
  In m l ->
  (forall x, In x l -> x = m \/ employee_key x < employee_key m) ->
  greatest_key l = Some m.
Proof.
  intros Hm Hl. destruct (greatest_key l) as [g|] eqn:G.
  - apply greatest_key_in in G as [Hg Hmax].
    destruct (Hl g Hg) as [->|Hlt]; [reflexivity|].
    specialize (Hmax m Hm). lia.
  - apply greatest_key_none in G. subst l. destruct Hm.
Qed.

(** C7: E1 has a single current row, Ana Diaz of Lima, which is also
    its latest row.  The address change to Cusco effective 2025-08-13
    closes that row in place with [expiry_date] 2025-08-12 and
    [is_current] false, leaves every other row as it was, and appends a
    row that keeps Ana and Diaz, holds Cusco, starts on 2025-08-13, is
    current and expires on the sentinel 9999-12-31.  The two tables the
    store is asked to accept are the closed table and the closed table
    with the new row. *)
Theorem C7_address_change_closes_and_appends table_ok now db row1 :
  let update := cusco_update in
  let t1 := close_sql day_2025_08_13 (Some "E1") now (rows db) in
  let row1' := close_set day_2025_08_13 now row1 in
  let row2 := address_version (next_key db) now row1' update in
  In row1 (rows db) ->
  employee_id row1 = Some "E1" ->
  is_current row1 = true ->
  first_name row1 = Some "Ana" ->
  last_name row1 = Some "Diaz" ->
  city row1 = Some "Lima" ->
  (forall r, In r (rows db) -> employee_id r = Some "E1" -> r <> row1 ->
     is_current r = false /\ employee_key r < employee_key row1) ->
  table_ok t1 = true ->
  table_ok (t1 ++ [row2]) = true ->
  _update_employee_addresses table_ok now [update] db
  = Ok (1%nat, {| rows := t1 ++ [row2]; next_key := next_key db + 1 |})
  /\ (forall i r, nth_error (rows db) i = Some r ->
        nth_error (t1 ++ [row2]) i = Some (if decide (r = row1) then row1' else r))
  /\ nth_error (t1 ++ [row2]) (length (rows db)) = Some row2
  /\ (employee_key row1' = employee_key row1
      /\ effective_date row1' = effective_date row1
      /\ expiry_date row1' = Date.date 2025 8 12
      /\ is_current row1' = false)
  /\ (employee_id row2 = Some "E1"
      /\ first_name row2 = Some "Ana"
      /\ last_name row2 = Some "Diaz"
      /\ city row2 = Some "Cusco"
      /\ effective_date row2 = Date.date 2025 8 13
      /\ is_current row2 = true
      /\ expiry_date row2 = Date.infinite).
Proof.
  intros update t1 row1' row2 Hin Hid Hcur Hfirst Hlast Hcity Hrest Hok1 Hok2.
  assert (Hclose : forall r, In r (rows db) ->
            (if close_where (Some "E1") r then close_set day_2025_08_13 now r else r)
            = if decide (r = row1) then row1' else r).
  { intros r Hr. destruct (decide (r = row1)) as [->|Hne].
    - unfold close_where. now rewrite Hid, Hcur.
    - unfold close_where.
      destruct (sql_eq (employee_id r) (Some "E1")) eqn:E; [|reflexivity].
      apply sql_eq_true in E as [E _].
      now rewrite (proj1 (Hrest r Hr E Hne)). }
  assert (Hsel : select_sql (Some "E1") day_2025_08_13 t1 = Some row1').
  { unfold select_sql. apply greatest_key_strict.
    - apply filter_In. split.
      + unfold t1, close_sql. apply in_map_iff. exists row1.
        split; [|assumption]. rewrite (Hclose row1 Hin).
        now destruct (decide (row1 = row1)).
      + apply select_where_true. simpl. rewrite Hid. split; reflexivity.
    - intros x Hx. apply filter_In in Hx as [Hx Hw].
      apply select_where_true in Hw as [Hw _]. apply sql_eq_true in Hw as [Hw _].
      unfold t1, close_sql in Hx. apply in_map_iff in Hx as (r & <- & Hr).
      rewrite (Hclose r Hr) in *.
      destruct (decide (r = row1)) as [->|Hne]; [now left|].
      right. exact (proj2 (Hrest r Hr Hw Hne)). }
  assert (Hlen : length t1 = length (rows db)) by apply length_map.
  split.
  - rewrite update_addresses_single, address_step_protocol.
    exact (close_select_insert_inserts table_ok now (Some "E1") day_2025_08_13
             (fun key snap => address_version key now snap update)
             0%nat db row1' Hok1 Hsel Hok2).
  - split.
    + intros i r Hi.
      rewrite nth_error_app1 by (rewrite Hlen; apply nth_error_Some; congruence).
      unfold t1, close_sql. rewrite nth_error_map, Hi. simpl. f_equal.
      apply Hclose. eapply nth_error_In, Hi.
    + split.
      * rewrite nth_error_app2 by lia. rewrite Hlen, Nat.sub_diag. reflexivity.
      * simpl. rewrite Hid, Hfirst, Hlast. repeat split.
Qed.

Lemma C7_address_change_closes_and_appends_witness :
  exists db',
    _update_employee_addresses unconstrained 0 [cusco_update] ana_db
    = Ok (1%nat, db')
    /\ validity db'
       = [(Date.date 2025 8 12, Date.date 2025 8 12, false);
          (Date.date 2025 8 13, Date.infinite, true)]
    /\ current_cities db' = [Some "Cusco"].
Proof.
  assert (Hrows : rows ana_db = [ana_row]) by (vm_compute; reflexivity).
  destruct (C7_address_change_closes_and_appends unconstrained 0 ana_db ana_row)
    as (Hrun & _).
  - rewrite Hrows. now left.
  - vm_compute; reflexivity.
  - vm_compute; reflexivity.
  - vm_compute; reflexivity.
  - vm_compute; reflexivity.
  - vm_compute; reflexivity.
  - rewrite Hrows. intros r [<-|[]] _ Hne. now contradiction Hne.
  - reflexivity.
  - reflexivity.
  - eexists. split; [exact Hrun|]. split; vm_compute; reflexivity.
Defined.

(** ** Which attributes a new version carries forward *)

(** C8, as the claim states it, fails.  Ana's current row holds a street
    address; the change event's payload holds the [city] key only; the
    new current row has NULL for [address_line1]. *)
Lemma C8_absent_address_field_becomes_null :
  exists db',
    _update_employee_addresses unconstrained 0 [cusco_update] ana_street_db
    = Ok (1%nat, db')
    /\ event_address (city_data "E1" "Cusco") !! "address_line1" = None
    /\ current_address_line1 ana_street_db = [Some "Av. Larco 101"]
    /\ current_address_line1 db' = [None]
    /\ current_cities db' = [Some "Cusco"].
Proof.
  eexists. split; [vm_compute; reflexivity|].
  repeat split.
Qed.

Lemma get_absent (d : obj) k : d !! k = None -> get d k = None.
Proof. unfold get. now intros ->. Qed.

(** C8 (amended): a new version row carries forward from the closed
    row's snapshot the attributes outside the event's field group only.
    For an address-change event these are the identity, name, contact,
    personal and employment columns, while all six address columns are
    taken from the payload: a key present there overwrites, and a key
    absent there stores NULL.  For a name-and-address-change event the
    same holds, except that [last_name] too is taken from the payload
    (NULL when absent) and [full_name] is rebuilt from the carried first
    name and that last name. *)
Theorem C8_address_group_is_replaced_whole table_ok now today data count db db' :
  (address_step table_ok now (_extract_address_update_data today data) count db
   = Ok (S count, db') ->
   exists t1 snap new,
     rows db' = t1 ++ [new]
     /\ latest_expiring (get (data_scalars data) "employee_id") today t1 snap
     /\ carried_columns new = carried_columns snap
     /\ last_name new = last_name snap
     /\ full_name new = full_name snap
     /\ forall k v, In (k, v) (address_columns new) ->
          v = get (event_address data) k
          /\ (event_address data !! k = None -> v = None))
  /\ (name_address_step table_ok now
        (_extract_name_address_update_data today data) count db
      = Ok (S count, db') ->
      exists t1 snap new,
        rows db' = t1 ++ [new]
        /\ latest_expiring (get (data_scalars data) "employee_id") today t1 snap
        /\ carried_columns new = carried_columns snap
        /\ last_name new = get (event_personal_info data) "last_name"
        /\ full_name new
           = Some (py_str (first_name snap) +:+ " " +:+ py_str (last_name new))
        /\ forall k v, In (k, v) (address_columns new) ->
             v = get (event_address data) k
             /\ (event_address data !! k = None -> v = None)).
Proof.
  split; intros H.
  - rewrite address_step_protocol in H.
    apply close_select_insert_spec in H as (t1 & _ & _ & [[Hc _]|(snap & Hs & _ & Hr)]);
      [lia|].
    exists t1, snap. eexists. split; [exact Hr|]. split; [exact Hs|].
    repeat split.
    all: simpl in H; repeat destruct H as [H|H]; try contradiction;
      injection H as <- <-; try reflexivity.
    all: now apply get_absent.
  - rewrite name_address_step_protocol in H.
    apply close_select_insert_spec in H as (t1 & _ & _ & [[Hc _]|(snap & Hs & _ & Hr)]);
      [lia|].
    exists t1, snap. eexists. split; [exact Hr|]. split; [exact Hs|].
    repeat split.
    all: simpl in H; repeat destruct H as [H|H]; try contradiction;
      injection H as <- <-; try reflexivity.
    all: now apply get_absent.
Qed.

Lemma C8_address_group_is_replaced_whole_witness :
  exists db1 db2,
    (address_step unconstrained 0
       (_extract_address_update_data day_2025_08_13 (city_data "E1" "Cusco"))
       0 ana_street_db = Ok (1%nat, db1)
     /\ exists t1 new, rows db1 = t1 ++ [new] /\ address_line1 new = None)
    /\ (name_address_step unconstrained 0
          (_extract_name_address_update_data day_2025_08_13
             (data_of (name_address_record "E1" "Lopez" "Cusco")))
          0 ana_street_db = Ok (1%nat, db2)
        /\ exists t1 new,
            rows db2 = t1 ++ [new]
            /\ last_name new
               = get (event_personal_info
                        (data_of (name_address_record "E1" "Lopez" "Cusco")))
                   "last_name").
Proof.
  eexists; eexists. split.
  - split; [vm_compute; reflexivity|].
    match goal with
    | |- exists t1 new, rows ?d = _ /\ _ =>
        destruct (proj1 (C8_address_group_is_replaced_whole unconstrained 0
                           day_2025_08_13 (city_data "E1" "Cusco") 0%nat
                           ana_street_db d))
          as (t1 & snap & new & Hr & _ & _ & _ & _ & Ha);
          [vm_compute; reflexivity|]
    end.
    exists t1, new. split; [exact Hr|].
    apply (Ha "address_line1"); [now left|vm_compute; reflexivity].
  - split; [vm_compute; reflexivity|].
    match goal with
    | |- exists t1 new, rows ?d = _ /\ _ =>
        destruct (proj2 (C8_address_group_is_replaced_whole unconstrained 0
                           day_2025_08_13
                           (data_of (name_address_record "E1" "Lopez" "Cusco"))
                           0%nat ana_street_db d))
          as (t1 & snap & new & Hr & _ & _ & Hl & _);
          [vm_compute; reflexivity|]
    end.
    exists t1, new. split; [exact Hr|exact Hl].
Defined.

(** ** The data quality checks *)

Lemma current_count_pos id t :
  (0 < current_count id t)%nat ->
  id ∈ remove_dups (map employee_id (List.filter is_current t)).
Proof.
  unfold current_count. intros H.
  destruct (List.filter _ t) as [|r l] eqn:F; [simpl in H; lia|].
  assert (Hr : In r (List.filter
                       (fun r => is_current r && bool_decide (employee_id r = id)) t))
    by (rewrite F; now left).
  apply filter_In in Hr as [Hin Hp]. apply andb_true_iff in Hp as [Hc Hid].
  apply bool_decide_eq_true in Hid.
  apply elem_of_remove_dups, list_elem_of_In, in_map_iff.
  exists r. split; [assumption|]. apply filter_In. now split.
Qed.

Lemma dup_check_sql_single t e :
  current_count e t = 2%nat ->
  (forall e', e' <> e -> (current_count e' t <= 1)%nat) ->
  dup_check_sql t = [(e, 2%nat)].
Proof.
  intros He Hothers. unfold dup_check_sql. rewrite <- He.
  apply (filter_map_single (fun id => (id, current_count id t))
           (fun g => (1 <? snd g)%nat)).
  - apply NoDup_remove_dups.
  - apply current_count_pos. lia.
  - simpl. rewrite He. reflexivity.
  - intros x _ Hx. simpl. apply Nat.ltb_ge. now apply Hothers.
Qed.

Lemma current_count_other e e' t :
  (forall r, In r t -> employee_id r = e) -> e' <> e ->
  current_count e' t = 0%nat.
Proof.
  intros Hall Hne. unfold current_count. rewrite filter_none; [reflexivity|].
  intros r Hr. rewrite (Hall r Hr).
  rewrite bool_decide_eq_false_2 by congruence. apply andb_false_r.
Qed.

Lemma main_store table_ok now today employees db :
  snd (main table_ok now today employees db)
  = snd (set_employee table_ok now (parse_employee_data today employees) db).
Proof.
  unfold main.
  destruct (set_employee _ _ _ _) as [[|] db']; simpl; [|reflexivity].
  now destruct (validate_data_quality db').
Qed.

(** C9: on a store where one entity has two current rows and every
    other entity at most one, the duplicate check returns exactly one
    group, that entity with count 2, and the validation fails.  The
    validation runs only after [set_employee] has committed; it writes
    nothing: whatever it reports, the store [main] ends with is the one
    [set_employee] left, and a committed batch that leaves such a store
    ends in a warning with that store kept. *)
Theorem C9_validator_reports_one_duplicate_entity
    table_ok now today employees db0 db e :
  current_count e (rows db) = 2%nat ->
  (forall e', e' <> e -> (current_count e' (rows db) <= 1)%nat) ->
  dup_check_sql (rows db) = [(e, 2%nat)]
  /\ validate_data_quality db = false
  /\ snd (main table_ok now today employees db0)
     = snd (set_employee table_ok now (parse_employee_data today employees) db0)
  /\ (set_employee table_ok now (parse_employee_data today employees) db0
      = (true, db) ->
      main table_ok now today employees db0 = (Warned, db)).
Proof.
  intros He Hothers.
  pose proof (dup_check_sql_single (rows db) e He Hothers) as Hdup.
  assert (Hval : validate_data_quality db = false).
  { unfold validate_data_quality. now rewrite Hdup. }
  split; [exact Hdup|]. split; [exact Hval|].
  split; [apply main_store|].
  intros Hrun. unfold main. now rewrite Hrun, Hval.
Qed.

Lemma C9_validator_reports_one_duplicate_entity_witness :
  let employees := [insert_record "E1" "Ana" "Diaz" "Lima";
                    insert_record "E1" "Anita" "Diaz" "Tacna"] in
  dup_check_sql (rows twice_db) = [(Some "E1", 2%nat)]
  /\ validate_data_quality twice_db = false
  /\ snd (main unconstrained 0 day_2025_08_12 employees empty_db)
     = snd (set_employee unconstrained 0
              (parse_employee_data day_2025_08_12 employees) empty_db)
  /\ (set_employee unconstrained 0
        (parse_employee_data day_2025_08_12 employees) empty_db
      = (true, twice_db) ->
      main unconstrained 0 day_2025_08_12 employees empty_db
      = (Warned, twice_db)).
Proof.
  intros employees.
  apply (C9_validator_reports_one_duplicate_entity unconstrained 0
           day_2025_08_12 employees empty_db twice_db (Some "E1")).
  - vm_compute; reflexivity.
  - intros e' Hne.
    rewrite (current_count_other (Some "E1") e' (rows twice_db)); [lia| |exact Hne].
    assert (Hall : forallb (fun r => bool_decide (employee_id r = Some "E1"))
                     (rows twice_db) = true) by (vm_compute; reflexivity).
    intros r Hr. rewrite forallb_forall in Hall.
    exact (bool_decide_eq_true_1 _ (Hall r Hr)).
Defined.

(** ** The update loops keep one current row per entity *)

Lemma close_select_insert_rows table_ok now id eff version count db count' db' :
  close_select_insert table_ok now id eff version count db = Ok (count', db') ->
  let t1 := close_sql eff id now (rows db) in
  (count' = count /\ rows db' = t1 /\ select_sql id eff t1 = None)
  \/ (exists snap,
        select_sql id eff t1 = Some snap
        /\ count' = S count
        /\ rows db' = t1 ++ [version (next_key db) snap]).
Proof.
  unfold close_select_insert, execute_close, execute_insert, execute_write.
  destruct (table_ok (close_sql eff id now (rows db))); simpl; [|discriminate].
  destruct (select_sql id eff (close_sql eff id now (rows db))) as [snap|] eqn:S.
  - destruct (table_ok _); simpl; [|discriminate].
    intros [= <- <-]. right. exists snap. auto.
  - intros [= <- <-]. left. auto.
Qed.

Lemma current_count_close_other e eff id now t :
  e <> id -> current_count e (close_sql eff id now t) = current_count e t.
Proof.
  intros Hne. unfold current_count, close_sql.
  induction t as [|r t IH]; simpl; [reflexivity|].
  destruct (close_where id r) eqn:W.
  - apply andb_true_iff in W as [E _]. apply sql_eq_true in E as [E _].
    simpl. rewrite (bool_decide_eq_false_2 (employee_id r = e)) by congruence.
    rewrite andb_false_r. exact IH.
  - destruct (is_current r && bool_decide (employee_id r = e)); simpl;
      now rewrite IH.
Qed.

Lemma current_count_close_target eff s now t :
  current_count (Some s) (close_sql eff (Some s) now t) = 0%nat.
Proof.
  unfold current_count. rewrite filter_none; [reflexivity|].
  intros r Hr. destruct (bool_decide_reflect (employee_id r = Some s)) as [E|E].
  - rewrite (close_sql_leaves_none_current (Some s) eff now t r Hr); [reflexivity|].
    rewrite E. simpl. now apply bool_decide_eq_true.
  - apply andb_false_r.
Qed.

Lemma close_sql_null eff now t : close_sql eff None now t = t.
Proof.
  apply close_sql_no_match. intros r _. unfold close_where.
  now destruct (employee_id r).
Qed.

Lemma current_count_last e t r :
  (current_count e (t ++ [r]) <= S (current_count e t))%nat
  /\ (employee_id r <> e -> current_count e (t ++ [r]) = current_count e t).
Proof.
  rewrite current_count_app.
  assert (H1 : current_count e [r]
               = if is_current r && bool_decide (employee_id r = e)
                 then 1%nat else 0%nat).
  { unfold current_count. simpl. now destruct (_ && _). }
  rewrite H1. split.
  - destruct (is_current r && bool_decide (employee_id r = e)); lia.
  - intros Hne. rewrite (bool_decide_eq_false_2 _ Hne), andb_false_r. lia.
Qed.

(** One close-then-insert step, for a version that keeps the entity of
    the fetched row, leaves at most one current row per entity when it
    found at most one; the target entity ends with at most one in any
    case. *)
Lemma close_select_insert_keeps_one_current
    table_ok now id eff version count db count' db' :
  (forall key snap, employee_id (version key snap) = employee_id snap) ->
  close_select_insert table_ok now id eff version count db = Ok (count', db') ->
  at_most_one_current (rows db) ->
  at_most_one_current (rows db').
Proof.
  intros Hver H Hinv e.
  apply close_select_insert_rows in H. simpl in H.
  destruct id as [s|].
  - destruct (decide (e = Some s)) as [->|Hne].
    + destruct H as [(_ & -> & _)|(snap & _ & _ & ->)].
      * rewrite current_count_close_target. lia.
      * pose proof (proj1 (current_count_last (Some s)
                             (close_sql eff (Some s) now (rows db))
                             (version (next_key db) snap))) as Hle.
        rewrite current_count_close_target in Hle. exact Hle.
    + destruct H as [(_ & -> & _)|(snap & Hsel & _ & ->)].
      * rewrite current_count_close_other by assumption. apply Hinv.
      * apply select_sql_latest in Hsel as (_ & Hid & _).
        apply sql_eq_true in Hid as [Hid _].
        rewrite (proj2 (current_count_last e _ _)).
        -- rewrite current_count_close_other by assumption. apply Hinv.
        -- rewrite Hver. congruence.
  - rewrite close_sql_null in H.
    destruct H as [(_ & -> & _)|(snap & Hsel & _)]; [apply Hinv|].
    apply select_sql_latest in Hsel as (_ & Hid & _).
    now destruct (employee_id snap).
Qed.

Lemma address_loop_keeps_one_current table_ok now updates count db count' db' :
  address_loop table_ok now updates count db = Ok (count', db') ->
  at_most_one_current (rows db) ->
  at_most_one_current (rows db').
Proof.
  revert count db. induction updates as [|u updates IH]; intros count db; simpl.
  - now intros [= _ <-].
  - destruct (address_step table_ok now u count db) as [[c1 db1]|] eqn:S;
      simpl; [|discriminate].
    intros H Hinv. apply (IH _ _ H).
    rewrite address_step_protocol in S.
    eapply close_select_insert_keeps_one_current; [|exact S|exact Hinv].
    reflexivity.
Qed.

Lemma name_address_loop_keeps_one_current
    table_ok now updates count db count' db' :
  name_address_loop table_ok now updates count db = Ok (count', db') ->
  at_most_one_current (rows db) ->
  at_most_one_current (rows db').
Proof.
  revert count db. induction updates as [|u updates IH]; intros count db; simpl.
  - now intros [= _ <-].
  - destruct (name_address_step table_ok now u count db) as [[c1 db1]|] eqn:S;
      simpl; [|discriminate].
    intros H Hinv. apply (IH _ _ H).
    rewrite name_address_step_protocol in S.
    eapply close_select_insert_keeps_one_current; [|exact S|exact Hinv].
    reflexivity.
Qed.

(** ** Where the loaded table breaks the checked invariants *)

(** C3: the program does leave two current rows for one entity.  On the
    store where E1 is current, a batch with one [INSERT] for E1 commits,
    E1 then has two current rows, and the program's own duplicate check
    reports it. *)
Theorem C3_insert_of_current_entity_leaves_two_current_rows :
  exists db',
    main unconstrained 0 day_2025_08_13
      [insert_record "E1" "Ana" "Diaz" "Lima"] ana_db = (Warned, db')
    /\ current_count (Some "E1") (rows ana_db) = 1%nat
    /\ current_count (Some "E1") (rows db') = 2%nat
    /\ dup_check_sql (rows db') = [(Some "E1", 2%nat)].
Proof.
  eexists. split; [vm_compute; reflexivity|].
  repeat split.
Qed.

(** Closing never looks at the row's own start date: a row that starts
    the day before the event's effective date, or later, ends up with
    an expiry date that is not after its start. *)
Lemma close_set_inverts eff now r :
  Date.minus_one_day eff <= effective_date r ->
  expiry_date (close_set eff now r) <= effective_date (close_set eff now r).
Proof. simpl. lia. Qed.

(** C4: the program does write a row with [effective_date] not before
    [expiry_date].  A batch that inserts E1 and changes E1's address on
    the same day commits; the first row starts on 2025-08-13 and expires
    on 2025-08-12, and the program's own date check reports it. *)
Theorem C4_same_day_change_inverts_the_closed_row :
  exists db',
    main unconstrained 0 day_2025_08_13
      [insert_record "E1" "Ana" "Diaz" "Lima"; address_record "E1" "Cusco"]
      empty_db = (Warned, db')
    /\ validity db'
       = [(Date.date 2025 8 13, Date.date 2025 8 12, false);
          (Date.date 2025 8 13, Date.infinite, true)]
    /\ dup_check_sql (rows db') = []
    /\ date_check_sql (rows db')
       = [(Some "E1", Date.date 2025 8 13, Date.date 2025 8 12)].
Proof.
  eexists. split; [vm_compute; reflexivity|].
  repeat split.
Qed.

(** * Further properties of the program *)

(** ** What the parser keeps *)

Lemma kind_lengths events :
  (length (List.filter (kind_is "INSERT") events)
   + length (List.filter (kind_is "UPDATE_ADDRESS") events)
   + length (List.filter (kind_is "UPDATE_NAME_ADDRESS") events))%nat
  = length (List.filter supported events).
Proof.
  induction events as [|r events IH]; simpl; [reflexivity|].
  unfold supported at 1.
  destruct (kind_is "INSERT" r) eqn:K1.
  - rewrite (kind_is_exclusive "INSERT" "UPDATE_ADDRESS" r),
      (kind_is_exclusive "INSERT" "UPDATE_NAME_ADDRESS" r) by (easy || discriminate).
    simpl. lia.
  - destruct (kind_is "UPDATE_ADDRESS" r) eqn:K2.
    + rewrite (kind_is_exclusive "UPDATE_ADDRESS" "UPDATE_NAME_ADDRESS" r)
        by (easy || discriminate).
      simpl. lia.
    + destruct (kind_is "UPDATE_NAME_ADDRESS" r); simpl; lia.
Qed.

(** X1: [parse_employee_data] files every record of a supported
    operation type under its type, extracted with the matching
    [_extract_*] method, and keeps the input order inside each type; the
    three lists together hold as many events as the input has supported
    records. *)
Theorem parse_partitions_by_kind today employees :
  let parsed := parse_employee_data today employees in
  new_employees parsed
  = map (fun r => _extract_new_employee_data today (data_of r))
      (List.filter (kind_is "INSERT") employees)
  /\ address_updates parsed
     = map (fun r => _extract_address_update_data today (data_of r))
         (List.filter (kind_is "UPDATE_ADDRESS") employees)
  /\ name_and_address_updates parsed
     = map (fun r => _extract_name_address_update_data today (data_of r))
         (List.filter (kind_is "UPDATE_NAME_ADDRESS") employees)
  /\ (length (new_employees parsed) + length (address_updates parsed)
      + length (name_and_address_updates parsed))%nat
     = length (List.filter supported employees).
Proof.
  intros parsed. unfold parsed, parse_employee_data.
  rewrite parse_fold_new, parse_fold_address, parse_fold_name. simpl.
  repeat split. rewrite !length_map. apply kind_lengths.
Qed.

(** ** The full name of a new employee *)

Lemma strip_front_width width n l :
  width [] = 0%nat ->
  (length l <= n)%nat -> width (strip_front width n l) = 0%nat.
Proof.
  intros Hnil. revert l. induction n as [|n IH]; intros l Hn; simpl.
  - destruct l; [exact Hnil|simpl in Hn; lia].
  - destruct (width l) as [|w] eqn:W; [exact W|].
    apply IH. rewrite length_skipn. lia.
Qed.

Lemma strip_front_fixed width n l :
  width l = 0%nat -> strip_front width n l = l.
Proof. intros W. destruct n; simpl; [reflexivity|]. now rewrite W. Qed.

Lemma strip_front_suffix width n l :
  exists k, strip_front width n l = skipn k l.
Proof.
  revert l. induction n as [|n IH]; intros l; simpl.
  - now exists 0%nat.
  - destruct (width l) as [|w]; [now exists 0%nat|].
    destruct (IH (skipn (S w) l)) as [k ->].
    exists (S w + k)%nat. now rewrite skipn_skipn, Nat.add_comm.
Qed.

Lemma space_width_prefix m l :
  space_width l = 0%nat -> space_width (firstn m l) = 0%nat.
Proof.
  destruct l as [|a [|b [|c l]]], m as [|[|[|m]]]; simpl; try reflexivity;
    repeat match goal with
           | |- context [if ?x then _ else _] => destruct x
           end; congruence.
Qed.

Lemma rstrip_bytes s :
  exists m,
    list_ascii_of_string (rstrip s) = firstn m (list_ascii_of_string s).
Proof.
  unfold rstrip. rewrite list_ascii_of_string_of_list_ascii.
  destruct (strip_front_suffix space_width_rev
              (length (rev (list_ascii_of_string s)))
              (rev (list_ascii_of_string s))) as [k ->].
  rewrite skipn_rev, rev_involutive. eauto.
Qed.

Lemma lstrip_starts s : starts_with_space (lstrip s) = false.
Proof.
  unfold starts_with_space, lstrip.
  rewrite list_ascii_of_string_of_list_ascii, strip_front_width; auto.
Qed.

Lemma lstrip_fixed s : starts_with_space s = false -> lstrip s = s.
Proof.
  unfold starts_with_space, lstrip. intros H.
  apply negb_false_iff, Nat.eqb_eq in H.
  rewrite strip_front_fixed by exact H. apply string_of_list_ascii_of_string.
Qed.

Lemma rstrip_ends s : ends_with_space (rstrip s) = false.
Proof.
  unfold ends_with_space, rstrip.
  rewrite list_ascii_of_string_of_list_ascii, rev_involutive,
    strip_front_width; auto.
Qed.

Lemma rstrip_starts s :
  starts_with_space s = false -> starts_with_space (rstrip s) = false.
Proof.
  unfold starts_with_space. intros H.
  apply negb_false_iff, Nat.eqb_eq in H.
  destruct (rstrip_bytes s) as [m ->].
  now rewrite space_width_prefix.
Qed.

Lemma rstrip_fixed s : rstrip (rstrip s) = rstrip s.
Proof.
  pose proof (rstrip_ends s) as H. unfold ends_with_space in H.
  apply negb_false_iff, Nat.eqb_eq in H.
  unfold rstrip at 1. rewrite strip_front_fixed by exact H.
  rewrite rev_involutive. apply string_of_list_ascii_of_string.
Qed.

Lemma strip_trimmed s :
  starts_with_space (strip s) = false
  /\ ends_with_space (strip s) = false
  /\ strip (strip s) = strip s.
Proof.
  unfold strip. split; [apply rstrip_starts, lstrip_starts|].
  split; [apply rstrip_ends|].
  rewrite (lstrip_fixed (rstrip (lstrip s)))
    by apply rstrip_starts, lstrip_starts.
  apply rstrip_fixed.
Qed.

(** X2: the [full_name] that [_extract_new_employee_data] builds never
    begins or ends with whitespace, whatever the two name values hold,
    and stripping it again changes nothing; it is the value the INSERT
    binds to the [full_name] column. *)
Theorem new_employee_full_name_is_trimmed today data key now :
  let employee := _extract_new_employee_data today data in
  starts_with_space (ne_full_name employee) = false
  /\ ends_with_space (ne_full_name employee) = false
  /\ strip (ne_full_name employee) = ne_full_name employee
  /\ full_name (new_employee_row key now employee)
     = Some (ne_full_name employee).
Proof.
  intros employee. unfold employee. simpl.
  destruct (strip_trimmed
              (py_str (get_default (default ∅ (data_personal_info data))
                         "first_name" "") +:+ " "
               +:+ py_str (get_default (default ∅ (data_personal_info data))
                             "last_name" ""))) as (H1 & H2 & H3).
  repeat split; assumption.
Qed.

(** A first name that begins with U+00A0 and a last name that ends with
    U+2003 lose both. *)
Example full_name_strips_unicode_space :
  ne_full_name (_extract_new_employee_data day_2025_08_13 padded_names_data)
  = "Ana Diaz".
Proof. vm_compute. reflexivity. Qed.

(** X3: the default [''] of the two name look-ups replaces an absent
    key only.  With both name keys absent the full name is the empty
    string (the lone separator is stripped) and both name columns are
    NULL; with both keys present and [null] the name columns are NULL
    as well but the full name is the text [None None]. *)
Theorem new_employee_full_name_without_names today data :
  let personal_info := event_personal_info data in
  let employee := _extract_new_employee_data today data in
  (personal_info !! "first_name" = None ->
   personal_info !! "last_name" = None ->
   ne_full_name employee = ""
   /\ ne_first_name employee = None /\ ne_last_name employee = None)
  /\ (personal_info !! "first_name" = Some None ->
      personal_info !! "last_name" = Some None ->
      ne_full_name employee = "None None"
      /\ ne_first_name employee = None /\ ne_last_name employee = None).
Proof.
  intros personal_info employee.
  unfold employee, personal_info, event_personal_info. simpl.
  unfold get, get_default.
  split; intros -> ->; repeat split.
Qed.

Lemma new_employee_full_name_without_names_witness :
  (ne_full_name (_extract_new_employee_data day_2025_08_13 empty_data) = ""
   /\ ne_first_name (_extract_new_employee_data day_2025_08_13 empty_data) = None
   /\ ne_last_name (_extract_new_employee_data day_2025_08_13 empty_data) = None)
  /\ (ne_full_name (_extract_new_employee_data day_2025_08_13 null_names_data)
      = "None None"
      /\ ne_first_name (_extract_new_employee_data day_2025_08_13 null_names_data)
         = None
      /\ ne_last_name (_extract_new_employee_data day_2025_08_13 null_names_data)
         = None).
Proof.
  split.
  - apply (proj1 (new_employee_full_name_without_names day_2025_08_13
                    empty_data)); vm_compute; reflexivity.
  - apply (proj2 (new_employee_full_name_without_names day_2025_08_13
                    null_names_data)); vm_compute; reflexivity.
Defined.

(** ** A relation kept by every statement is kept by the batch *)

Lemma execute_insert_rows table_ok db mk db' :
  execute_insert table_ok db mk = Ok db' ->
  rows db' = rows db ++ [mk (next_key db)] /\ next_key db' = next_key db + 1.
Proof.
  unfold execute_insert, execute_write.
  destruct (table_ok _); [|discriminate]. intros [= <-]. split; reflexivity.
Qed.

Lemma execute_close_rows table_ok now db eff id db' :
  execute_close table_ok now db eff id = Ok db' ->
  rows db' = close_sql eff id now (rows db) /\ next_key db' = next_key db.
Proof.
  unfold execute_close, execute_write.
  destruct (table_ok _); [|discriminate]. intros [= <-]. split; reflexivity.
Qed.

Section Batch.

Variable table_ok : list Row -> bool.
Variable now : Z.
Variable P : Db -> Db -> Prop.
Variable new_ok : NewEmployee -> Prop.
Variable address_ok : AddressUpdate -> Prop.
Variable name_address_ok : NameAddressUpdate -> Prop.
Hypothesis P_refl : forall db, P db db.
Hypothesis P_trans : forall a b c, P a b -> P b c -> P a c.
Hypothesis P_insert : forall db employee db',
  new_ok employee ->
  execute_insert table_ok db (fun key => new_employee_row key now employee)
  = Ok db' -> P db db'.
Hypothesis P_address : forall update count db count' db',
  address_ok update ->
  address_step table_ok now update count db = Ok (count', db') -> P db db'.
Hypothesis P_name_address : forall update count db count' db',
  name_address_ok update ->
  name_address_step table_ok now update count db = Ok (count', db') -> P db db'.

Lemma insert_loop_rel l count db count' db' :
  Forall new_ok l ->
  insert_loop table_ok now l count db = Ok (count', db') -> P db db'.
Proof.
  intros Hl. revert count db.
  induction Hl as [|e l He Hl IH]; intros count db; simpl.
  - intros [= _ <-]. apply P_refl.
  - destruct (execute_insert table_ok db _) as [db1|] eqn:E; simpl; [|discriminate].
    intros H. eapply P_trans; [eapply P_insert; [exact He|exact E]|eapply IH, H].
Qed.

Lemma address_loop_rel l count db count' db' :
  Forall address_ok l ->
  address_loop table_ok now l count db = Ok (count', db') -> P db db'.
Proof.
  intros Hl. revert count db.
  induction Hl as [|u l Hu Hl IH]; intros count db; simpl.
  - intros [= _ <-]. apply P_refl.
  - destruct (address_step table_ok now u count db) as [[c1 db1]|] eqn:E;
      simpl; [|discriminate].
    intros H. eapply P_trans; [eapply P_address; [exact Hu|exact E]|eapply IH, H].
Qed.

Lemma name_address_loop_rel l count db count' db' :
  Forall name_address_ok l ->
  name_address_loop table_ok now l count db = Ok (count', db') -> P db db'.
Proof.
  intros Hl. revert count db.
  induction Hl as [|u l Hu Hl IH]; intros count db; simpl.
  - intros [= _ <-]. apply P_refl.
  - destruct (name_address_step table_ok now u count db) as [[c1 db1]|] eqn:E;
      simpl; [|discriminate].
    intros H.
    eapply P_trans; [eapply P_name_address; [exact Hu|exact E]|eapply IH, H].
Qed.

Lemma set_employee_rel parsed_data db :
  Forall new_ok (new_employees parsed_data) ->
  Forall address_ok (address_updates parsed_data) ->
  Forall name_address_ok (name_and_address_updates parsed_data) ->
  P db (snd (set_employee table_ok now parsed_data db)).
Proof.
  intros H1 H2 H3.
  unfold set_employee, set_employee_body, _insert_new_employees,
    _update_employee_addresses, _update_employee_names_addresses.
  destruct (insert_loop _ _ _ _ _) as [[c1 db1]|] eqn:E1; simpl; [|apply P_refl].
  destruct (address_loop _ _ _ _ _) as [[c2 db2]|] eqn:E2; simpl; [|apply P_refl].
  destruct (name_address_loop _ _ _ _ _) as [[c3 db3]|] eqn:E3; simpl;
    [|apply P_refl].
  eapply P_trans; [eapply insert_loop_rel; [exact H1|exact E1]|].
  eapply P_trans; [eapply address_loop_rel; [exact H2|exact E2]
                  |eapply name_address_loop_rel; [exact H3|exact E3]].
Qed.

End Batch.

(** ** The insert loop *)

Lemma insert_loop_outcome table_ok now l count db :
  match insert_loop table_ok now l count db with
  | Ok (count', db') =>
      count' = (count + length l)%nat
      /\ rows db' = rows db ++ keyed_rows (next_key db) now l
      /\ next_key db' = next_key db + Z.of_nat (length l)
      /\ forall k, (1 <= k <= length l)%nat ->
           table_ok (rows db ++ keyed_rows (next_key db) now (firstn k l)) = true
  | Raise _ =>
      exists k, (1 <= k <= length l)%nat
        /\ table_ok (rows db ++ keyed_rows (next_key db) now (firstn k l)) = false
        /\ forall j, (1 <= j < k)%nat ->
             table_ok (rows db ++ keyed_rows (next_key db) now (firstn j l)) = true
  end.
Proof.
  revert count db. induction l as [|e l IH]; intros count db; simpl.
  - rewrite app_nil_r, Nat.add_0_r, Z.add_0_r. repeat split. intros k Hk. lia.
  - unfold execute_insert, execute_write.
    destruct (table_ok (rows db ++ [new_employee_row (next_key db) now e])) eqn:T;
      simpl.
    + specialize (IH (S count)
                    {| rows := rows db ++ [new_employee_row (next_key db) now e];
                       next_key := next_key db + 1 |}).
      simpl in IH.
      destruct (insert_loop table_ok now l (S count) _) as [[c' db']|].
      * destruct IH as (-> & -> & -> & Hall).
        split; [lia|]. split; [now rewrite <- app_assoc|]. split; [lia|].
        intros [|[|k]] Hk; [lia|exact T|].
        specialize (Hall (S k)). rewrite <- app_assoc in Hall. apply Hall. lia.
      * destruct IH as (k & Hk & Hbad & Hgood). exists (S k).
        split; [lia|]. split.
        -- simpl. now rewrite <- app_assoc in Hbad.
        -- intros [|[|j]] Hj; [lia|exact T|].
           specialize (Hgood (S j)). rewrite <- app_assoc in Hgood.
           apply Hgood. lia.
    + exists 1%nat. split; [lia|]. split; [exact T|]. intros j Hj. lia.
Qed.

(** X4: [_insert_new_employees] appends one row per employee, in list
    order, after the rows already stored, which it leaves as they are;
    the count it returns is the length of the list.  It raises exactly
    when the store refuses the table at some row, and it stops at the
    first such row. *)
Theorem insert_new_employees_outcome table_ok now new_employees db :
  let t k := rows db ++ keyed_rows (next_key db) now (firstn k new_employees) in
  match _insert_new_employees table_ok now new_employees db with
  | Ok (count, db') =>
      count = length new_employees
      /\ rows db' = rows db ++ keyed_rows (next_key db) now new_employees
      /\ forall k, (1 <= k <= length new_employees)%nat -> table_ok (t k) = true
  | Raise _ =>
      exists k, (1 <= k <= length new_employees)%nat
        /\ table_ok (t k) = false
        /\ forall j, (1 <= j < k)%nat -> table_ok (t j) = true
  end.
Proof.
  intros t. unfold _insert_new_employees.
  pose proof (insert_loop_outcome table_ok now new_employees 0%nat db) as H.
  destruct (insert_loop table_ok now new_employees 0 db) as [[c db']|].
  - destruct H as (-> & -> & _ & Hall). repeat split. exact Hall.
  - exact H.
Qed.

(** ** What a batch does to the rows it found *)

Lemma history_kept_refl db : history_kept db db.
Proof. intros i r Hi. exists r. auto. Qed.

Lemma history_kept_trans a b c :
  history_kept a b -> history_kept b c -> history_kept a c.
Proof.
  intros Hab Hbc i r Hi.
  destruct (Hab i r Hi) as (r1 & Hi1 & Hf1 & Hc1).
  destruct (Hbc i r1 Hi1) as (r2 & Hi2 & Hf2 & Hc2).
  exists r2. split; [exact Hi2|]. split; [congruence|].
  destruct Hc1 as [->|[Hr Hr1]]; [exact Hc2|].
  destruct Hc2 as [->|[Hr1' _]]; [now right|congruence].
Qed.

Lemma history_kept_append db db' r :
  rows db' = rows db ++ [r] -> history_kept db db'.
Proof.
  intros Hrows i r0 Hi. exists r0. rewrite Hrows.
  rewrite nth_error_app1 by (apply nth_error_Some; congruence). auto.
Qed.

Lemma history_kept_close db db' eff id now :
  rows db' = close_sql eff id now (rows db) -> history_kept db db'.
Proof.
  intros Hrows i r Hi. rewrite Hrows. unfold close_sql.
  rewrite nth_error_map, Hi. simpl. eexists. split; [reflexivity|].
  unfold close_where.
  destruct (sql_eq (employee_id r) id); simpl; [|auto].
  destruct (is_current r); simpl; auto.
Qed.

Lemma close_select_insert_history table_ok now id eff version count db count' db' :
  close_select_insert table_ok now id eff version count db = Ok (count', db') ->
  history_kept db db'.
Proof.
  unfold close_select_insert.
  destruct (execute_close table_ok now db eff id) as [db1|] eqn:E1; simpl;
    [|discriminate].
  apply execute_close_rows in E1 as [E1 _].
  destruct (select_sql id eff (rows db1)).
  - destruct (execute_insert table_ok db1 _) as [db2|] eqn:E2; simpl;
      [|discriminate].
    apply execute_insert_rows in E2 as [E2 _]. intros [= _ <-].
    eapply history_kept_trans;
      [eapply history_kept_close, E1|eapply history_kept_append, E2].
  - intros [= _ <-]. eapply history_kept_close, E1.
Qed.

(** X5: whatever [set_employee] returns, the store it leaves holds
    every row the store held before, at the same place and with the
    same key, entity, attributes, effective date and creation stamp.  A
    row differs from what it was only by having been closed; a row that
    was already closed is left exactly as it was, and no row is
    deleted.  The same holds for a whole run of [main]. *)
Theorem set_employee_keeps_history table_ok now today employees parsed_data db :
  let db' := snd (set_employee table_ok now parsed_data db) in
  history_kept db db'
  /\ (forall i r, nth_error (rows db) i = Some r -> is_current r = false ->
        nth_error (rows db') i = Some r)
  /\ (length (rows db) <= length (rows db'))%nat
  /\ history_kept db (snd (main table_ok now today employees db)).
Proof.
  assert (Hall : forall p, history_kept db (snd (set_employee table_ok now p db))).
  { intros p.
    apply (set_employee_rel table_ok now history_kept
             (fun _ => True) (fun _ => True) (fun _ => True)).
    - apply history_kept_refl.
    - apply history_kept_trans.
    - intros d e d' _ H. apply execute_insert_rows in H as [H _].
      eapply history_kept_append, H.
    - intros u c d c' d' _ H. rewrite address_step_protocol in H.
      eapply close_select_insert_history, H.
    - intros u c d c' d' _ H. rewrite name_address_step_protocol in H.
      eapply close_select_insert_history, H.
    - apply Forall_forall. intros; exact I.
    - apply Forall_forall. intros; exact I.
    - apply Forall_forall. intros; exact I. }
  intros db'. split; [apply Hall|]. split; [|split].
  - intros i r Hi Hc. destruct (Hall parsed_data i r Hi) as (r' & Hi' & _ & [->|[Hr _]]);
      [exact Hi'|congruence].
  - destruct (rows db) as [|r0 t0] eqn:R; [simpl; lia|].
    assert (Hlast : nth_error (rows db) (length t0) <> None).
    { apply nth_error_Some. rewrite R. simpl. lia. }
    destruct (nth_error (rows db) (length t0)) as [r|] eqn:Hi; [|contradiction].
    destruct (Hall parsed_data _ r Hi) as (r' & Hi' & _).
    assert (length t0 < length (rows db'))%nat
      by (apply nth_error_Some; unfold db'; congruence).
    simpl. lia.
  - rewrite main_store. apply Hall.
Qed.

(** ** Counts and table growth *)

Lemma close_select_insert_growth table_ok now id eff version count db count' db' :
  close_select_insert table_ok now id eff version count db = Ok (count', db') ->
  (count <= count' <= S count)%nat
  /\ length (rows db') = (length (rows db) + (count' - count))%nat.
Proof.
  intros H. apply close_select_insert_rows in H. simpl in H.
  destruct H as [(-> & -> & _)|(snap & _ & -> & ->)].
  - unfold close_sql. rewrite length_map. lia.
  - unfold close_sql. rewrite length_app, length_map. simpl. lia.
Qed.

Lemma address_loop_growth table_ok now l count db count' db' :
  address_loop table_ok now l count db = Ok (count', db') ->
  (count <= count' <= count + length l)%nat
  /\ length (rows db') = (length (rows db) + (count' - count))%nat.
Proof.
  revert count db. induction l as [|u l IH]; intros count db; simpl.
  - intros [= <- <-]. lia.
  - destruct (address_step table_ok now u count db) as [[c1 db1]|] eqn:E;
      simpl; [|discriminate].
    rewrite address_step_protocol in E.
    apply close_select_insert_growth in E. intros H. apply IH in H. lia.
Qed.

Lemma name_address_loop_growth table_ok now l count db count' db' :
  name_address_loop table_ok now l count db = Ok (count', db') ->
  (count <= count' <= count + length l)%nat
  /\ length (rows db') = (length (rows db) + (count' - count))%nat.
Proof.
  revert count db. induction l as [|u l IH]; intros count db; simpl.
  - intros [= <- <-]. lia.
  - destruct (name_address_step table_ok now u count db) as [[c1 db1]|] eqn:E;
      simpl; [|discriminate].
    rewrite name_address_step_protocol in E.
    apply close_select_insert_growth in E. intros H. apply IH in H. lia.
Qed.

Lemma keyed_rows_length key now l : length (keyed_rows key now l) = length l.
Proof.
  revert key. induction l as [|e l IH]; intros key; simpl; [reflexivity|].
  now rewrite IH.
Qed.

(** X6: when the three loops of [set_employee] all succeed, the insert
    count is the number of new employees, each update count is at most
    the number of its events (an event that found no row to close is
    not counted), and the table has grown by exactly the three counts
    together: every counted event adds one row. *)
Theorem set_employee_counts_are_rows_added
    table_ok now parsed_data db n1 n2 n3 db' :
  set_employee_body table_ok now parsed_data db = Ok (n1, n2, n3, db') ->
  n1 = length (new_employees parsed_data)
  /\ (n2 <= length (address_updates parsed_data))%nat
  /\ (n3 <= length (name_and_address_updates parsed_data))%nat
  /\ length (rows db') = (length (rows db) + n1 + n2 + n3)%nat.
Proof.
  unfold set_employee_body, _insert_new_employees, _update_employee_addresses,
    _update_employee_names_addresses.
  pose proof (insert_loop_outcome table_ok now (new_employees parsed_data)
                0%nat db) as H1.
  destruct (insert_loop _ _ _ _ _) as [[c1 db1]|]; simpl; [|discriminate].
  destruct H1 as (Hc1 & Hr1 & _).
  destruct (address_loop _ _ _ _ _) as [[c2 db2]|] eqn:E2; simpl; [|discriminate].
  destruct (name_address_loop _ _ _ _ _) as [[c3 db3]|] eqn:E3; simpl;
    [|discriminate].
  intros [= <- <- <- <-].
  apply address_loop_growth in E2. apply name_address_loop_growth in E3.
  rewrite Hr1, length_app, keyed_rows_length in E2. lia.
Qed.

Lemma set_employee_counts_are_rows_added_witness :
  exists db',
    set_employee_body unconstrained 0 parsed_mixed ana_db
    = Ok (1%nat, 1%nat, 1%nat, db')
    /\ (1%nat = length (new_employees parsed_mixed)
        /\ (1 <= length (address_updates parsed_mixed))%nat
        /\ (1 <= length (name_and_address_updates parsed_mixed))%nat
        /\ length (rows db') = (length (rows ana_db) + 1 + 1 + 1)%nat).
Proof.
  eexists. split; [vm_compute; reflexivity|].
  apply (set_employee_counts_are_rows_added unconstrained 0 parsed_mixed ana_db).
  vm_compute; reflexivity.
Defined.

(** ** Current rows after an update *)

Lemma current_count_single id r :
  current_count id [r]
  = if is_current r && bool_decide (employee_id r = id) then 1%nat else 0%nat.
Proof. unfold current_count. simpl. now destruct (_ && _). Qed.

Lemma close_select_insert_current table_ok now s eff version count db count' db' :
  (forall key snap, employee_id (version key snap) = employee_id snap) ->
  (forall key snap, is_current (version key snap) = true) ->
  close_select_insert table_ok now (Some s) eff version count db
  = Ok (count', db') ->
  current_count (Some s) (rows db') = (count' - count)%nat
  /\ forall id, id <> Some s ->
       current_count id (rows db') = current_count id (rows db).
Proof.
  intros Hid Hcur H. apply close_select_insert_rows in H. simpl in H.
  destruct H as [(-> & -> & _)|(snap & Hsel & -> & ->)].
  - split; [rewrite current_count_close_target; lia|].
    intros id Hne. now apply current_count_close_other.
  - apply select_sql_latest in Hsel as (_ & Hsnap & _).
    apply sql_eq_true in Hsnap as [Hsnap _].
    split.
    + rewrite current_count_app, current_count_close_target, current_count_single.
      rewrite Hcur, Hid, Hsnap, bool_decide_eq_true_2 by reflexivity.
      simpl. lia.
    + intros id Hne.
      rewrite (proj2 (current_count_last id _ _)) by (rewrite Hid; congruence).
      now apply current_count_close_other.
Qed.

(** X8: one pass of either update loop leaves its entity with exactly
    one current row when it appended a version and with none when it
    appended nothing, however many current rows the entity had before;
    the number of current rows of every other entity is unchanged. *)
Theorem update_step_leaves_one_current_row table_ok now s count db count' db' :
  (forall update,
     au_employee_id update = Some s ->
     address_step table_ok now update count db = Ok (count', db') ->
     current_count (Some s) (rows db') = (count' - count)%nat
     /\ (count' - count <= 1)%nat
     /\ forall id, id <> Some s ->
          current_count id (rows db') = current_count id (rows db))
  /\ (forall update,
        nu_employee_id update = Some s ->
        name_address_step table_ok now update count db = Ok (count', db') ->
        current_count (Some s) (rows db') = (count' - count)%nat
        /\ (count' - count <= 1)%nat
        /\ forall id, id <> Some s ->
             current_count id (rows db') = current_count id (rows db)).
Proof.
  split; intros update Hs H.
  - rewrite address_step_protocol, Hs in H.
    pose proof (close_select_insert_growth _ _ _ _ _ _ _ _ _ H) as [Hc _].
    apply close_select_insert_current in H as [H1 H2]; [|reflexivity..].
    split; [exact H1|]. split; [lia|exact H2].
  - rewrite name_address_step_protocol, Hs in H.
    pose proof (close_select_insert_growth _ _ _ _ _ _ _ _ _ H) as [Hc _].
    apply close_select_insert_current in H as [H1 H2]; [|reflexivity..].
    split; [exact H1|]. split; [lia|exact H2].
Qed.

Lemma update_step_leaves_one_current_row_witness :
  exists db1 db2,
    current_count (Some "E1") (rows twice_db) = 2%nat
    /\ (address_step unconstrained 0 cusco_update 0 twice_db = Ok (1%nat, db1)
        /\ current_count (Some "E1") (rows db1) = (1 - 0)%nat)
    /\ (name_address_step unconstrained 0 lopez_update 0 twice_db
        = Ok (1%nat, db2)
        /\ current_count (Some "E1") (rows db2) = (1 - 0)%nat).
Proof.
  eexists; eexists. split; [vm_compute; reflexivity|]. split.
  - split; [vm_compute; reflexivity|].
    apply (proj1 (update_step_leaves_one_current_row unconstrained 0 "E1"
                    0%nat twice_db 1%nat _) cusco_update);
      vm_compute; reflexivity.
  - split; [vm_compute; reflexivity|].
    apply (proj2 (update_step_leaves_one_current_row unconstrained 0 "E1"
                    0%nat twice_db 1%nat _) lopez_update);
      vm_compute; reflexivity.
Defined.

(** ** Batches that keep one current row per entity *)

Lemma keyed_rows_keep_one_current key now l t :
  NoDup (map ne_employee_id l) ->
  (forall e, In e l -> current_count (ne_employee_id e) t = 0%nat) ->
  at_most_one_current t ->
  at_most_one_current (t ++ keyed_rows key now l).
Proof.
  revert key t. induction l as [|e l IH]; intros key t Hnd Hfresh Hinv; simpl.
  - now rewrite app_nil_r.
  - apply NoDup_cons in Hnd as [He Hnd].
    change (new_employee_row key now e :: keyed_rows (key + 1) now l)
      with ([new_employee_row key now e] ++ keyed_rows (key + 1) now l).
    rewrite app_assoc. apply IH; [exact Hnd| |].
    + intros e' He'.
      rewrite (proj2 (current_count_last _ _ _)).
      * apply Hfresh. now right.
      * simpl. intros Heq. apply He. rewrite Heq.
        apply list_elem_of_In, in_map, He'.
    + intros id. destruct (decide (id = ne_employee_id e)) as [->|Hne].
      * pose proof (proj1 (current_count_last (ne_employee_id e) t
                             (new_employee_row key now e))) as Hle.
        rewrite (Hfresh e) in Hle by now left. exact Hle.
      * rewrite (proj2 (current_count_last _ _ _)) by (simpl; congruence).
        apply Hinv.
Qed.

(** X9: a batch keeps the table at one current row per entity at most
    when the table starts that way and the new employees are pairwise
    distinct entities none of which has a current row yet.  The events
    of the two update loops need no condition, and the conclusion holds
    whether [set_employee] commits or rolls back. *)
Theorem set_employee_keeps_one_current table_ok now parsed_data db :
  at_most_one_current (rows db) ->
  NoDup (map ne_employee_id (new_employees parsed_data)) ->
  (forall e, In e (new_employees parsed_data) ->
     current_count (ne_employee_id e) (rows db) = 0%nat) ->
  at_most_one_current (rows (snd (set_employee table_ok now parsed_data db))).
Proof.
  intros Hinv Hnd Hfresh.
  unfold set_employee, set_employee_body, _insert_new_employees,
    _update_employee_addresses, _update_employee_names_addresses.
  pose proof (insert_loop_outcome table_ok now (new_employees parsed_data)
                0%nat db) as H1.
  destruct (insert_loop _ _ _ _ _) as [[c1 db1]|]; simpl; [|exact Hinv].
  destruct H1 as (_ & Hr1 & _).
  assert (Hinv1 : at_most_one_current (rows db1)).
  { rewrite Hr1. now apply keyed_rows_keep_one_current. }
  destruct (address_loop _ _ _ _ _) as [[c2 db2]|] eqn:E2; simpl; [|exact Hinv].
  apply address_loop_keeps_one_current in E2; [|exact Hinv1].
  destruct (name_address_loop _ _ _ _ _) as [[c3 db3]|] eqn:E3; simpl;
    [|exact Hinv].
  now apply name_address_loop_keeps_one_current in E3.
Qed.

Lemma set_employee_keeps_one_current_witness :
  at_most_one_current
    (rows (snd (set_employee unconstrained 0 parsed_mixed ana_db))).
Proof.
  assert (Hrows : rows ana_db = [ana_row]) by (vm_compute; reflexivity).
  assert (Hnew : map ne_employee_id (new_employees parsed_mixed) = [Some "E2"])
    by (vm_compute; reflexivity).
  apply (set_employee_keeps_one_current unconstrained 0 parsed_mixed ana_db).
  - intros id. rewrite Hrows, current_count_single.
    destruct (_ && _); lia.
  - rewrite Hnew. apply NoDup_singleton.
  - assert (Hall : forallb
                     (fun e => Nat.eqb (current_count (ne_employee_id e)
                                          (rows ana_db)) 0)
                     (new_employees parsed_mixed) = true)
      by (vm_compute; reflexivity).
    intros e He. rewrite forallb_forall in Hall.
    apply Nat.eqb_eq, Hall, He.
Defined.

(** ** What the two checks decide *)

Lemma dup_check_sql_in t id n :
  In (id, n) (dup_check_sql t) <-> n = current_count id t /\ (1 < n)%nat.
Proof.
  unfold dup_check_sql. rewrite filter_In, in_map_iff. simpl. split.
  - intros [(id' & [= <- <-] & _) Hn]. split; [reflexivity|].
    now apply Nat.ltb_lt.
  - intros [-> Hn]. split; [|now apply Nat.ltb_lt].
    exists id. split; [reflexivity|].
    apply list_elem_of_In, current_count_pos. lia.
Qed.

Lemma dup_check_sql_groups_once (g : option string -> nat) q (l : list (option string)) :
  NoDup l ->
  NoDup (map fst (List.filter q (map (fun id => (id, g id)) l))).
Proof.
  induction l as [|x l IH]; intros Hnd; simpl; [apply NoDup_nil_2|].
  apply NoDup_cons in Hnd as [Hx Hnd].
  destruct (q (x, g x)); simpl; [|now apply IH].
  apply NoDup_cons. split; [|now apply IH].
  intros Hin. apply Hx. apply list_elem_of_In in Hin. apply list_elem_of_In.
  apply in_map_iff in Hin as ([y n] & Hy & Hin). simpl in Hy. subst y.
  apply filter_In in Hin as [Hin _].
  apply in_map_iff in Hin as (z & [= <- _] & Hz). exact Hz.
Qed.

(** X10: the duplicate check of [validate_data_quality] returns one
    [(employee_id, count)] pair for exactly the entities that have more
    than one current row, each with its number of current rows, and no
    entity twice. *)
Theorem dup_check_reports_each_duplicate_once t :
  (forall id n,
     In (id, n) (dup_check_sql t) <-> n = current_count id t /\ (1 < n)%nat)
  /\ NoDup (map fst (dup_check_sql t)).
Proof.
  split; [intros id n; apply dup_check_sql_in|].
  unfold dup_check_sql. apply dup_check_sql_groups_once, NoDup_remove_dups.
Qed.

Lemma dup_check_sql_empty t : dup_check_sql t = [] <-> at_most_one_current t.
Proof.
  split.
  - intros H id. destruct (le_lt_dec (current_count id t) 1) as [Hle|Hlt];
      [exact Hle|].
    assert (Hin : In (id, current_count id t) (dup_check_sql t))
      by (apply dup_check_sql_in; split; [reflexivity|lia]).
    rewrite H in Hin. destruct Hin.
  - intros Hinv. destruct (dup_check_sql t) as [|[id n] l] eqn:E; [reflexivity|].
    assert (Hin : In (id, n) (dup_check_sql t)) by (rewrite E; now left).
    apply dup_check_sql_in in Hin as [-> Hn]. specialize (Hinv id). lia.
Qed.

Lemma date_check_sql_empty t :
  date_check_sql t = [] <-> forall r, In r t -> effective_date r < expiry_date r.
Proof.
  unfold date_check_sql. split.
  - intros H r Hr.
    destruct (Z.leb_spec (expiry_date r) (effective_date r)) as [Hle|Hlt];
      [|exact Hlt].
    assert (Hin : In r (List.filter
                          (fun r => expiry_date r <=? effective_date r) t))
      by (apply filter_In; split; [exact Hr|now apply Z.leb_le]).
    apply (in_map (fun r => (employee_id r, effective_date r, expiry_date r)))
      in Hin.
    rewrite H in Hin. destruct Hin.
  - intros H. rewrite filter_none; [reflexivity|].
    intros r Hr. apply Z.leb_gt. now apply H.
Qed.

Lemma validate_true_iff db :
  validate_data_quality db = true
  <-> dup_check_sql (rows db) = [] /\ date_check_sql (rows db) = [].
Proof.
  unfold validate_data_quality.
  destruct (dup_check_sql (rows db)); [|split; [discriminate|intros [[=] _]]].
  destruct (date_check_sql (rows db)); [|split; [discriminate|intros [_ [=]]]].
  split; auto.
Qed.

Lemma validate_meets_quality db :
  validate_data_quality db = true -> quality_holds (rows db).
Proof.
  intros H. apply validate_true_iff in H as [H1 H2].
  split; [now apply dup_check_sql_empty|now apply date_check_sql_empty].
Qed.

Lemma quality_passes_validate db :
  quality_holds (rows db) -> validate_data_quality db = true.
Proof.
  intros [H1 H2]. apply validate_true_iff.
  split; [now apply dup_check_sql_empty|now apply date_check_sql_empty].
Qed.

(** X11: [validate_data_quality] returns [True] exactly when the table
    has at most one current row for every [employee_id] (the rows
    without one counted as one entity) and every row starts strictly
    before it expires. *)
Theorem validate_data_quality_decides db :
  validate_data_quality db = true <-> quality_holds (rows db).
Proof.
  unfold validate_data_quality, quality_holds.
  rewrite <- dup_check_sql_empty, <- date_check_sql_empty.
  destruct (dup_check_sql (rows db)); [|split; [discriminate|intros [[=] _]]].
  destruct (date_check_sql (rows db)); [|split; [discriminate|intros [_ [=]]]].
  split; auto.
Qed.

(** X12: how [main] ends tells what it left.  A failed run leaves the
    store as it found it; a run that reports the validation passed has
    committed a table that meets both quality conditions; a run that
    ends in the warning has committed a table that breaks one of them,
    and keeps it. *)
Theorem main_outcome_tells_the_store table_ok now today employees db :
  let run := set_employee table_ok now
               (parse_employee_data today employees) db in
  let db' := snd (main table_ok now today employees db) in
  match fst (main table_ok now today employees db) with
  | Failed => fst run = false /\ db' = db
  | Passed => run = (true, db') /\ quality_holds (rows db')
  | Warned => run = (true, db') /\ ~ quality_holds (rows db')
  end.
Proof.
  unfold main, set_employee.
  destruct (set_employee_body _ _ _ _) as [[[[n1 n2] n3] d]|]; simpl.
  - destruct (validate_data_quality d) eqn:V; simpl.
    + split; [reflexivity|]. now apply validate_meets_quality.
    + split; [reflexivity|]. intros Hq.
      apply quality_passes_validate in Hq. congruence.
  - split; reflexivity.
Qed.

(** ** Applying the same change again *)

Lemma validate_rejects_inverted db r :
  In r (rows db) -> expiry_date r <= effective_date r ->
  validate_data_quality db = false.
Proof.
  intros Hr Hle. destruct (validate_data_quality db) eqn:V; [|reflexivity].
  apply validate_meets_quality in V as [_ V]. specialize (V r Hr). lia.
Qed.

Lemma close_select_insert_again table_ok now id eff version count count2 db db1 :
  (forall t, table_ok t = true) ->
  (forall key snap, employee_id (version key snap) = employee_id snap) ->
  (forall key snap, is_current (version key snap) = true) ->
  (forall key snap, effective_date (version key snap) = eff) ->
  close_select_insert table_ok now id eff version count db = Ok (S count, db1) ->
  exists db2 t v v' v2,
    close_select_insert table_ok now id eff version count2 db1
    = Ok (S count2, db2)
    /\ rows db1 = t ++ [v]
    /\ is_current v = true
    /\ effective_date v = eff
    /\ rows db2 = close_sql eff id now t ++ [v'; v2]
    /\ frozen_columns v' = frozen_columns v
    /\ is_current v' = false
    /\ expiry_date v' = Date.minus_one_day (effective_date v')
    /\ is_current v2 = true
    /\ validate_data_quality db2 = false.
Proof.
  intros Hok Hid Hcur Heff H.
  pose proof (close_select_insert_rows _ _ _ _ _ _ _ _ _ H) as Hrows.
  simpl in Hrows. destruct Hrows as [(Hc & _)|(snap & Hsel & _ & Hr1)]; [lia|].
  apply select_sql_latest in Hsel as (_ & Hsnap & _).
  set (t := close_sql eff id now (rows db)) in *.
  set (v := version (next_key db) snap) in *.
  assert (Hv : close_where id v = true).
  { unfold close_where, v. now rewrite Hid, Hcur, Hsnap. }
  assert (Hclosed : close_sql eff id now (rows db1)
                    = close_sql eff id now t ++ [close_set eff now v]).
  { rewrite Hr1. unfold close_sql. rewrite map_app. simpl. now rewrite Hv. }
  assert (Hin : In (close_set eff now v) (close_sql eff id now (rows db1))).
  { rewrite Hclosed. apply in_or_app. right. now left. }
  destruct (select_sql id eff (close_sql eff id now (rows db1))) as [snap2|] eqn:S2.
  - exists {| rows := close_sql eff id now (rows db1)
                      ++ [version (next_key db1) snap2];
              next_key := next_key db1 + 1 |}.
    exists t, v, (close_set eff now v), (version (next_key db1) snap2).
    split.
    { unfold close_select_insert, execute_close, execute_insert, execute_write.
      rewrite Hok. simpl. rewrite S2, Hok. reflexivity. }
    split; [exact Hr1|]. split; [apply Hcur|]. split; [apply Heff|].
    split; [simpl; now rewrite Hclosed, <- app_assoc|].
    split; [reflexivity|]. split; [reflexivity|].
    split; [simpl; unfold v; now rewrite Heff|].
    split; [apply Hcur|].
    apply (validate_rejects_inverted _ (close_set eff now v)).
    + simpl. apply in_or_app. now left.
    + simpl. unfold v. rewrite Heff. unfold Date.minus_one_day. lia.
  - exfalso. apply (select_sql_none _ _ _ S2 _ Hin); simpl.
    + unfold v. now rewrite Hid.
    + reflexivity.
Qed.

(** X13: the update loops are not idempotent.  On a store that refuses
    no table, an address change (or name-and-address change) that
    appended a version [v] appends another one, [v2], when the same
    event is applied again.  The second pass closes [v] itself: the row
    at its place keeps the columns of [v] but is no longer current and
    expires the day before its own effective date; [v2] is the current
    row, and the table no longer passes [validate_data_quality]. *)
Theorem update_applied_again_appends_again table_ok now count count2 db db1 :
  (forall t, table_ok t = true) ->
  (forall update,
     address_step table_ok now update count db = Ok (S count, db1) ->
     exists db2 t v v' v2,
       address_step table_ok now update count2 db1 = Ok (S count2, db2)
       /\ rows db1 = t ++ [v]
       /\ is_current v = true
       /\ effective_date v = au_effective_date update
       /\ rows db2
          = close_sql (au_effective_date update) (au_employee_id update) now t
            ++ [v'; v2]
       /\ frozen_columns v' = frozen_columns v
       /\ is_current v' = false
       /\ expiry_date v' = Date.minus_one_day (effective_date v')
       /\ is_current v2 = true
       /\ validate_data_quality db2 = false)
  /\ (forall update,
        name_address_step table_ok now update count db = Ok (S count, db1) ->
        exists db2 t v v' v2,
          name_address_step table_ok now update count2 db1 = Ok (S count2, db2)
          /\ rows db1 = t ++ [v]
          /\ is_current v = true
          /\ effective_date v = nu_effective_date update
          /\ rows db2
             = close_sql (nu_effective_date update) (nu_employee_id update) now t
               ++ [v'; v2]
          /\ frozen_columns v' = frozen_columns v
          /\ is_current v' = false
          /\ expiry_date v' = Date.minus_one_day (effective_date v')
          /\ is_current v2 = true
          /\ validate_data_quality db2 = false).
Proof.
  intros Hok. split; intros update H.
  - rewrite address_step_protocol in *.
    eapply close_select_insert_again; try exact H; auto.
  - rewrite name_address_step_protocol in *.
    eapply close_select_insert_again; try exact H; auto.
Qed.

Lemma update_applied_again_appends_again_witness :
  exists db1 db2 t v v' v2,
    address_step unconstrained 0 cusco_update 0 ana_db = Ok (1%nat, db1)
    /\ address_step unconstrained 0 cusco_update 1 db1 = Ok (2%nat, db2)
    /\ rows db1 = t ++ [v]
    /\ is_current v = true
    /\ effective_date v = au_effective_date cusco_update
    /\ rows db2
       = close_sql (au_effective_date cusco_update)
           (au_employee_id cusco_update) 0 t ++ [v'; v2]
    /\ frozen_columns v' = frozen_columns v
    /\ is_current v' = false
    /\ expiry_date v' = Date.minus_one_day (effective_date v')
    /\ is_current v2 = true
    /\ validate_data_quality db2 = false.
Proof.
  eexists.
  match goal with
  | |- exists db2 t v v' v2, _ = Ok (_, ?d) /\ _ =>
      destruct (proj1 (update_applied_again_appends_again unconstrained 0
                         0%nat 1%nat ana_db d (fun t => eq_refl)) cusco_update)
        as (db2 & t & v & v' & v2 & H);
        [vm_compute; reflexivity|]
  end.
  exists db2, t, v, v', v2. split; [vm_compute; reflexivity|exact H].
Defined.

(** ** An update event without an employee id *)

(** X14: an address change or name-and-address change whose payload has
    no [employee_id] (the key is absent or holds [null]) matches no row:
    on a store that accepts its present table the pass changes nothing,
    appends nothing and counts nothing, and raises nothing. *)
Theorem update_without_employee_id_is_skipped
    table_ok now today data count db :
  get (data_scalars data) "employee_id" = None ->
  table_ok (rows db) = true ->
  address_step table_ok now (_extract_address_update_data today data) count db
  = Ok (count, db)
  /\ name_address_step table_ok now
       (_extract_name_address_update_data today data) count db
     = Ok (count, db).
Proof.
  intros Hid Hok.
  rewrite address_step_protocol, name_address_step_protocol. simpl.
  rewrite Hid. split.
  - apply close_select_insert_skips; [|exact Hok].
    intros r _ E. now destruct (employee_id r).
  - apply close_select_insert_skips; [|exact Hok].
    intros r _ E. now destruct (employee_id r).
Qed.

Lemma update_without_employee_id_is_skipped_witness :
  address_step unconstrained 0
    (_extract_address_update_data day_2025_08_13 empty_data) 0 ana_db
  = Ok (0%nat, ana_db)
  /\ name_address_step unconstrained 0
       (_extract_name_address_update_data day_2025_08_13 empty_data) 0 ana_db
     = Ok (0%nat, ana_db).
Proof.
  apply (update_without_employee_id_is_skipped unconstrained 0 day_2025_08_13
           empty_data 0%nat ana_db).
  - vm_compute; reflexivity.
  - reflexivity.
Defined.

(** ** What one run does to the table *)

Lemma run_kept_refl today now db : run_kept today now db db.
Proof.
  split.
  - intros i r Hi. exists r. auto.
  - intros i r' Hle Hi. apply nth_error_None in Hle. congruence.
Qed.

Lemma run_kept_trans today now a b c :
  run_kept today now a b -> run_kept today now b c -> run_kept today now a c.
Proof.
  intros [Hab Hab'] [Hbc Hbc']. split.
  - intros i r Hi.
    destruct (Hab i r Hi) as (r1 & Hi1 & Hf1 & Hc1).
    destruct (Hbc i r1 Hi1) as (r2 & Hi2 & Hf2 & Hc2).
    exists r2. split; [exact Hi2|]. split; [congruence|].
    destruct Hc1 as [->|(Hr & Hr1 & He1)]; [exact Hc2|].
    destruct Hc2 as [->|(Hr1' & _)]; [now right|congruence].
  - intros i r2 Hle Hi2.
    destruct (nth_error (rows b) i) as [r1|] eqn:Hi1.
    + pose proof (Hab' i r1 Hle Hi1) as (He & Hcr & Hopen).
      destruct (Hbc i r1 Hi1) as (r2' & Hi2' & Hf & Hch).
      assert (r2' = r2) by congruence. subst r2'.
      destruct Hch as [->|(_ & Hcl & Hex)]; [now repeat split|].
      injection Hf as _ _ _ _ _ Hf1 Hf2.
      repeat split; [congruence..|]. right. now split.
    + apply nth_error_None in Hi1. now apply (Hbc' i r2).
Qed.

Lemma run_kept_append today now db db' v :
  rows db' = rows db ++ [v] -> appended_today today now v ->
  run_kept today now db db'.
Proof.
  intros Hrows Hv. split.
  - intros i r Hi. exists r. rewrite Hrows.
    rewrite nth_error_app1 by (apply nth_error_Some; congruence). auto.
  - intros i r' Hle. rewrite Hrows, nth_error_app2 by exact Hle.
    destruct (i - length (rows db))%nat as [|k]; simpl.
    + now intros [= <-].
    + now destruct k.
Qed.

Lemma run_kept_close today now db db' id :
  rows db' = close_sql today id now (rows db) -> run_kept today now db db'.
Proof.
  intros Hrows. split.
  - intros i r Hi. rewrite Hrows. unfold close_sql.
    rewrite nth_error_map, Hi. simpl. eexists. split; [reflexivity|].
    unfold close_where.
    destruct (sql_eq (employee_id r) id); simpl; [|auto].
    destruct (is_current r); simpl; auto.
  - intros i r' Hle. rewrite Hrows. unfold close_sql. rewrite nth_error_map.
    apply nth_error_None in Hle. now rewrite Hle.
Qed.

Lemma close_select_insert_run_kept table_ok now id today version count db count' db' :
  (forall key snap, appended_today today now (version key snap)) ->
  close_select_insert table_ok now id today version count db = Ok (count', db') ->
  run_kept today now db db'.
Proof.
  intros Hv. unfold close_select_insert.
  destruct (execute_close table_ok now db today id) as [db1|] eqn:E1; simpl;
    [|discriminate].
  apply execute_close_rows in E1 as [E1 _].
  destruct (select_sql id today (rows db1)).
  - destruct (execute_insert table_ok db1 _) as [db2|] eqn:E2; simpl;
      [|discriminate].
    apply execute_insert_rows in E2 as [E2 _]. intros [= _ <-].
    eapply run_kept_trans;
      [eapply run_kept_close, E1|eapply run_kept_append; [exact E2|apply Hv]].
  - intros [= _ <-]. eapply run_kept_close, E1.
Qed.

(** X15: a run of [main] on the day [today] changes a row it found only
    by closing it on the day before [today], keeping its place, key,
    attributes and effective date.  Every row it adds starts on [today]
    and is either current with the sentinel expiry date or was closed
    again in the same run, and then it expires the day before it
    starts. *)
Theorem main_run_kept table_ok now today employees db :
  let db' := snd (main table_ok now today employees db) in
  run_kept today now db db'
  /\ forall i r', (length (rows db) <= i)%nat ->
       nth_error (rows db') i = Some r' -> is_current r' = false ->
       expiry_date r' < effective_date r'.
Proof.
  intros db'.
  assert (Hrun : run_kept today now db db').
  { unfold db'. rewrite main_store.
    assert (Hn : new_employees (parse_employee_data today employees)
                 = map (fun r => _extract_new_employee_data today (data_of r))
                     (List.filter (kind_is "INSERT") employees))
      by (unfold parse_employee_data; now rewrite parse_fold_new).
    assert (Ha : address_updates (parse_employee_data today employees)
                 = map (fun r => _extract_address_update_data today (data_of r))
                     (List.filter (kind_is "UPDATE_ADDRESS") employees))
      by (unfold parse_employee_data; now rewrite parse_fold_address).
    assert (Hu : name_and_address_updates (parse_employee_data today employees)
                 = map (fun r => _extract_name_address_update_data today
                                   (data_of r))
                     (List.filter (kind_is "UPDATE_NAME_ADDRESS") employees))
      by (unfold parse_employee_data; now rewrite parse_fold_name).
    apply (set_employee_rel table_ok now (run_kept today now)
             (fun e => ne_effective_date e = today
                       /\ ne_expiry_date e = Date.infinite
                       /\ ne_is_current e = true)
             (fun u => au_effective_date u = today)
             (fun u => nu_effective_date u = today)).
    - apply run_kept_refl.
    - apply run_kept_trans.
    - intros d e d' (He & Hx & Hc) H. apply execute_insert_rows in H as [H _].
      eapply run_kept_append; [exact H|].
      repeat split; simpl; auto.
    - intros u c d c' d' Hu' H. rewrite address_step_protocol, Hu' in H.
      eapply close_select_insert_run_kept; [|exact H].
      intros key snap. repeat split; simpl; auto.
    - intros u c d c' d' Hu' H. rewrite name_address_step_protocol, Hu' in H.
      eapply close_select_insert_run_kept; [|exact H].
      intros key snap. repeat split; simpl; auto.
    - rewrite Hn. apply Forall_forall. intros e He.
      apply list_elem_of_In, in_map_iff in He as (r & <- & _). repeat split.
    - rewrite Ha. apply Forall_forall. intros u Hu'.
      apply list_elem_of_In, in_map_iff in Hu' as (r & <- & _). reflexivity.
    - rewrite Hu. apply Forall_forall. intros u Hu'.
      apply list_elem_of_In, in_map_iff in Hu' as (r & <- & _). reflexivity. }
  split; [exact Hrun|].
  intros i r' Hle Hi Hcl.
  destruct (proj2 Hrun i r' Hle Hi) as (He & _ & [[Hc _]|[_ Hx]]); [congruence|].
  rewrite Hx, He. unfold Date.minus_one_day. lia.
Qed.

(** ** A name change without a last name *)

(** X16: when the payload of a name-and-address change has no
    [last_name] (absent or [null]) and a row is found, the version
    appended has a NULL [last_name] and a [full_name] made of the
    carried first name followed by the text [None]; the old last
    name is not carried over and the result is not stripped. *)
Theorem name_change_without_last_name table_ok now today data count db db' :
  get (event_personal_info data) "last_name" = None ->
  name_address_step table_ok now
    (_extract_name_address_update_data today data) count db
  = Ok (S count, db') ->
  exists t1 snap new,
    rows db' = t1 ++ [new]
    /\ In snap t1
    /\ first_name new = first_name snap
    /\ last_name new = None
    /\ full_name new = Some (py_str (first_name snap) +:+ " None").
Proof.
  intros Hlast H. rewrite name_address_step_protocol in H.
  apply close_select_insert_rows in H. simpl in H.
  destruct H as [(Hc & _)|(snap & Hsel & _ & Hr)]; [lia|].
  apply select_sql_latest in Hsel as (Hin & _).
  eexists; exists snap; eexists. split; [exact Hr|]. split; [exact Hin|].
  unfold event_personal_info in Hlast. simpl. rewrite Hlast. repeat split.
Qed.

Lemma name_change_without_last_name_witness :
  exists db' t1 snap new,
    name_address_step unconstrained 0
      (_extract_name_address_update_data day_2025_08_13 (city_data "E1" "Cusco"))
      0 ana_db = Ok (1%nat, db')
    /\ rows db' = t1 ++ [new]
    /\ In snap t1
    /\ first_name new = first_name snap
    /\ last_name new = None
    /\ full_name new = Some (py_str (first_name snap) +:+ " None").
Proof.
  eexists.
  match goal with
  | |- exists t1 snap new, _ = Ok (_, ?d) /\ _ =>
      destruct (name_change_without_last_name unconstrained 0 day_2025_08_13
                  (city_data "E1" "Cusco") 0%nat ana_db d)
        as (t1 & snap & new & H);
        [vm_compute; reflexivity|vm_compute; reflexivity|]
  end.
  exists t1, snap, new. split; [vm_compute; reflexivity|exact H].
Defined.

(** ** Entities a batch does not name *)

Lemma sql_eq_same col param : sql_eq col param = true -> col = param.
Proof. intros H. now apply sql_eq_true in H as [H _]. Qed.

Lemma close_select_insert_others
    table_ok now id eff version count db count' db'
    (touched : option string -> Prop) :
  touched id ->
  close_select_insert table_ok now id eff version count db = Ok (count', db') ->
  others_untouched touched db db'.
Proof.
  intros Hid H i r Hi Hr.
  apply close_select_insert_rows in H. simpl in H.
  assert (Hclose : nth_error (close_sql eff id now (rows db)) i = Some r).
  { unfold close_sql. rewrite nth_error_map, Hi. simpl. unfold close_where.
    destruct (sql_eq (employee_id r) id) eqn:E; [|reflexivity].
    apply sql_eq_same in E. congruence. }
  destruct H as [(_ & -> & _)|(snap & _ & _ & ->)]; [exact Hclose|].
  rewrite nth_error_app1; [exact Hclose|].
  apply nth_error_Some. congruence.
Qed.

(** X17: a batch changes no row of an entity that none of its update
    events names.  Whatever [set_employee] returns, every row whose
    [employee_id] is not the [employee_id] of an address change or of a
    name-and-address change of the batch is in the store afterwards as
    it was, current rows included; inserts touch no stored row. *)
Theorem set_employee_leaves_other_entities table_ok now parsed_data db :
  let touched id :=
    In id (map au_employee_id (address_updates parsed_data))
    \/ In id (map nu_employee_id (name_and_address_updates parsed_data)) in
  others_untouched touched db (snd (set_employee table_ok now parsed_data db)).
Proof.
  intros touched.
  apply (set_employee_rel table_ok now (others_untouched touched)
           (fun _ => True)
           (fun u => touched (au_employee_id u))
           (fun u => touched (nu_employee_id u))).
  - intros d i r Hi _. exact Hi.
  - intros a b c Hab Hbc i r Hi Hr. apply Hbc; [|exact Hr]. now apply Hab.
  - intros d e d' _ H i r Hi _. apply execute_insert_rows in H as [-> _].
    rewrite nth_error_app1; [exact Hi|]. apply nth_error_Some. congruence.
  - intros u c d c' d' Hu H. rewrite address_step_protocol in H.
    eapply close_select_insert_others; [exact Hu|exact H].
  - intros u c d c' d' Hu H. rewrite name_address_step_protocol in H.
    eapply close_select_insert_others; [exact Hu|exact H].
  - apply Forall_forall. intros; exact I.
  - apply Forall_forall. intros u Hu. left.
    apply in_map, list_elem_of_In, Hu.
  - apply Forall_forall. intros u Hu. right.
    apply in_map, list_elem_of_In, Hu.
Qed.
